(** * Pastecase: the record store and the view derivation

    A shallow embedding of [PastecaseDB] (the IndexedDB wrapper) and of the
    parts of [PastecaseApp] that derive the displayed list and feed the store
    (text modal, image modal, dropped files), followed by the properties of
    the specification that concern them.

    Conventions of the embedding:
    - a JavaScript string is its sequence of UTF-16 code units;
    - a settled promise and the completion of a synchronous call are the same
      datatype, [Completion]: a value, or a thrown error;
    - what the browser decides (the clock, a failure reported by the storage
      engine, the answer to [confirm], the order in which file reads finish)
      is an explicit argument of the operation that observes it;
    - the object store keeps its records in ascending key order, which is the
      order [getAll] returns them in.

    The methods are those of the revision with drag and drop.  The earlier
    [app.js] has the same [PastecaseDB], [renderClips], [saveTextClip],
    [saveImageClip] and [deleteClip], except that it saves no [mimeType]. *)

From Stdlib Require Import List ZArith NArith Bool Lia Permutation Sorted.
From Stdlib Require Import Strings.String Strings.Ascii.
Import ListNotations.

Set Implicit Arguments.

(** ** JavaScript strings *)

Definition JSString := list N.

(** The code units of an ASCII literal. *)
Definition js (s : string) : JSString :=
  map N_of_ascii (list_ascii_of_string s).

Fixpoint str_eqb (a b : JSString) : bool :=
  match a, b with
  | [], [] => true
  | x :: a', y :: b' => N.eqb x y && str_eqb a' b'
  | _, _ => false
  end.

(** A string is truthy when it is not empty. *)
Definition truthy (s : JSString) : bool :=
  match s with [] => false | _ :: _ => true end.

(** [s.startsWith(p)] *)
Fixpoint startsWith (s p : JSString) {struct p} : bool :=
  match p, s with
  | [], _ => true
  | _ :: _, [] => false
  | y :: p', x :: s' => N.eqb x y && startsWith s' p'
  end.

(** [s.endsWith(p)] *)
Definition endsWith (s p : JSString) : bool :=
  startsWith (rev s) (rev p).

(** [s.includes(q)]: [q] occurs in [s] at some position. *)
Fixpoint includes (s q : JSString) : bool :=
  startsWith s q ||
  match s with
  | [] => false
  | _ :: s' => includes s' q
  end.

(** White space and line terminators, the code units [trim] strips. *)
Definition isWhiteSpace (c : N) : bool :=
  existsb (N.eqb c)
    [9; 10; 11; 12; 13; 32; 160; 5760; 8192; 8193; 8194; 8195; 8196; 8197;
     8198; 8199; 8200; 8201; 8202; 8232; 8233; 8239; 8287; 12288; 65279]%N.

Fixpoint trimStart (s : JSString) : JSString :=
  match s with
  | [] => []
  | c :: s' => if isWhiteSpace c then trimStart s' else s
  end.

(** [s.trim()] *)
Definition trim (s : JSString) : JSString :=
  rev (trimStart (rev (trimStart s))).

(** [s.split(",")]: the pieces between the commas; never an empty array. *)
Fixpoint split_comma (s : JSString) : list JSString :=
  match s with
  | [] => [[]]
  | c :: s' =>
      if N.eqb c 44 then [] :: split_comma s'
      else match split_comma s' with
           | [] => [[c]]
           | piece :: rest => (c :: piece) :: rest
           end
  end.

(** The tag input of both modals:
    [value.split(",").map((tag) => tag.trim()).filter((tag) => tag)] *)
Definition parseTags (value : JSString) : list JSString :=
  filter truthy (map trim (split_comma value)).

(** [s.split(sep)] for a separator of one code unit. *)
Fixpoint split_on (sep : N) (s : JSString) : list JSString :=
  match s with
  | [] => [[]]
  | c :: s' =>
      if N.eqb c sep then [] :: split_on sep s'
      else match split_on sep s' with
           | [] => [[c]]
           | piece :: rest => (c :: piece) :: rest
           end
  end.

(** [array.pop()], as far as its value goes: the last element, if any. *)
Definition pop {A} (l : list A) : option A :=
  match rev l with
  | [] => None
  | x :: _ => Some x
  end.

(** [pieces.join(",")] *)
Fixpoint join_comma (pieces : list JSString) : JSString :=
  match pieces with
  | [] => []
  | [p] => p
  | p :: rest => p ++ 44%N :: join_comma rest
  end.

(** ** Completions *)

Inductive JSError :=
| TypeError
| DOMException (name : string).

Inductive Completion (A : Type) :=
| Normal (a : A)
| Throw (e : JSError).
Arguments Normal {A} a.
Arguments Throw {A} e.

Definition bind {A B} (c : Completion A) (k : A -> Completion B) : Completion B :=
  match c with
  | Normal a => k a
  | Throw e => Throw e
  end.

Notation "x <- c ;; k" := (bind c (fun x => k))
  (at level 61, c at next level, right associativity).

(** [array.filter(p)] for a callback that may throw. *)
Fixpoint Array_filter {A} (p : A -> Completion bool) (l : list A)
  : Completion (list A) :=
  match l with
  | [] => Normal []
  | x :: l' =>
      b <- p x ;;
      r <- Array_filter p l' ;;
      Normal (if b then x :: r else r)
  end.

(** Truthiness of a value that is a string, [null] or [undefined]. *)
Definition truthy_opt (v : option JSString) : bool :=
  match v with
  | Some s => truthy s
  | None => false
  end.

(** [a || b] and [a && b]: the right operand is evaluated only when the left
    one does not decide the result. *)
Definition js_or (a b : Completion bool) : Completion bool :=
  x <- a ;; if x then Normal true else b.

Definition js_and (a b : Completion bool) : Completion bool :=
  x <- a ;; if x then b else Normal false.

(** [array.some(p)] for a callback that may throw. *)
Fixpoint Array_some {A} (p : A -> Completion bool) (l : list A)
  : Completion bool :=
  match l with
  | [] => Normal false
  | x :: l' => b <- p x ;; if b then Normal true else Array_some p l'
  end.

(** [array.sort(cmp)]: the stable sort of the language standard; [a] goes
    before [b] when [cmp a b < 0], and equal elements keep their order. *)
Fixpoint sort_insert {A} (cmp : A -> A -> Z) (x : A) (l : list A) : list A :=
  match l with
  | [] => [x]
  | y :: l' => if (cmp x y <=? 0)%Z then x :: l else y :: sort_insert cmp x l'
  end.

Definition Array_sort {A} (cmp : A -> A -> Z) (l : list A) : list A :=
  fold_right (sort_insert cmp) [] l.

(** The ASCII part of the case mapping; [toLowerCase] agrees with it on ASCII
    strings.  The development is parametric in the full mapping and uses this
    one where a concrete string is evaluated. *)
Definition asciiToLowerCase (s : JSString) : JSString :=
  map (fun c => if (65 <=? c)%N && (c <=? 90)%N then (c + 32)%N else c) s.

(** ** Data model *)

(** The object handed to [saveClip], with the properties its callers give
    it: [type], [content], [tags] and [memo] always, the others on some
    paths.  [None] is an absent property.  No caller supplies an [id]. *)
Record ClipData := mkClipData {
  type : JSString;
  content : JSString;
  tags : list JSString;
  memo : option JSString;
  filename : option JSString;
  filesize : option N;
  mimeType : option JSString
}.

(** A stored record as [getAll] returns it: the saved object with its two
    timestamps and, under the key path, the key the store gave it.  A
    timestamp is the number of milliseconds [new Date(iso)] reads back from
    the stored [toISOString()] text. *)
Record Clip := mkClip {
  id : Z;
  data : ClipData;
  createdAt : Z;
  updatedAt : Z
}.

(** The requests the wrapper places on the object store. *)
Inductive IDBRequest :=
| AddRequest (d : ClipData) (created updated : Z)
| GetAllRequest
| DeleteRequest (key : Z).

(** The [clips] object store: its records in ascending key order, the
    current number of its key generator, and the requests placed so far
    (oldest first). *)
Record ObjectStore := mkDB {
  records : list Clip;
  keyGenerator : Z;
  requests : list IDBRequest
}.

(** The store [onupgradeneeded] creates: [keyPath: "id"],
    [autoIncrement: true], no record, generator at 1. *)
Definition createObjectStore : ObjectStore :=
  {| records := []; keyGenerator := 1; requests := [] |}.

Definition place (r : IDBRequest) (db : ObjectStore) : ObjectStore :=
  {| records := records db;
     keyGenerator := keyGenerator db;
     requests := requests db ++ [r] |}.

(** [store.add(clip)] on a value without [id]: the generator's number becomes
    the key, the generator advances, and the record goes after all others.
    [fault] is the error the engine reports for this request, if any (quota,
    I/O, an exhausted generator); a failed request changes no record. *)
Definition store_add (db : ObjectStore) (d : ClipData) (created updated : Z)
  (fault : option JSError) : Completion Z * ObjectStore :=
  let db1 := place (AddRequest d created updated) db in
  match fault with
  | Some e => (Throw e, db1)
  | None =>
      let key := keyGenerator db1 in
      (Normal key,
       {| records := records db1 ++ [mkClip key d created updated];
          keyGenerator := key + 1;
          requests := requests db1 |})
  end.

(** [store.getAll()] *)
Definition store_getAll (db : ObjectStore) (fault : option JSError)
  : Completion (list Clip) * ObjectStore :=
  let db1 := place GetAllRequest db in
  match fault with
  | Some e => (Throw e, db1)
  | None => (Normal (records db1), db1)
  end.

(** [store.delete(key)]: succeeds whether or not a record has the key. *)
Definition store_delete (db : ObjectStore) (key : Z) (fault : option JSError)
  : Completion unit * ObjectStore :=
  let db1 := place (DeleteRequest key) db in
  match fault with
  | Some e => (Throw e, db1)
  | None =>
      (Normal tt,
       {| records := filter (fun c => negb (id c =? key)%Z) (records db1);
          keyGenerator := keyGenerator db1;
          requests := requests db1 |})
  end.

(** ** class PastecaseDB *)

Module PastecaseDB.

(** [saveClip(clipData)]: the stored object is [clipData] with [createdAt]
    and [updatedAt]; [now1] and [now2] are the two readings of the clock. *)
Definition saveClip (db : ObjectStore) (clipData : ClipData) (now1 now2 : Z)
  (fault : option JSError) : Completion Z * ObjectStore :=
  store_add db clipData now1 now2 fault.

Definition getAllClips (db : ObjectStore) (fault : option JSError)
  : Completion (list Clip) * ObjectStore :=
  store_getAll db fault.

Definition deleteClip (db : ObjectStore) (key : Z) (fault : option JSError)
  : Completion unit * ObjectStore :=
  store_delete db key fault.

(** [!type || clip.type === type] *)
Definition matchesType (type_ : option JSString) (clip : Clip) : bool :=
  negb (truthy_opt type_) ||
  match type_ with
  | Some t => str_eqb (type (data clip)) t
  | None => false
  end.

Section Search.

(** [String.prototype.toLowerCase], the full Unicode mapping. *)
Variable toLowerCase : JSString -> JSString.

(** [v.toLowerCase()] on a value that may be [null] or [undefined]. *)
Definition toLowerCase_of (v : option JSString) : Completion JSString :=
  match v with
  | Some s => Normal (toLowerCase s)
  | None => Throw TypeError
  end.

(** [hay.toLowerCase().includes(needle.toLowerCase())] *)
Definition includes_ci (hay needle : option JSString) : Completion bool :=
  h <- toLowerCase_of hay ;;
  n <- toLowerCase_of needle ;;
  Normal (includes h n).

(** The disjunction that [searchClips] and [renderClips] both test a clip
    with:
<<
   clip.content.toLowerCase().includes(query.toLowerCase()) ||
   (clip.memo && clip.memo.toLowerCase().includes(query.toLowerCase())) ||
   clip.tags.some((tag) => tag.toLowerCase().includes(query.toLowerCase()))
>> *)
Definition matchesText (query : option JSString) (clip : Clip)
  : Completion bool :=
  js_or (includes_ci (Some (content (data clip))) query)
    (js_or
       (js_and (Normal (truthy_opt (memo (data clip))))
               (includes_ci (memo (data clip)) query))
       (Array_some (fun tag => includes_ci (Some tag) query)
                   (tags (data clip)))).

(** [!query || ...] *)
Definition matchesQuery (query : option JSString) (clip : Clip)
  : Completion bool :=
  js_or (Normal (negb (truthy_opt query))) (matchesText query clip).

(** [searchClips(query, type = null)] *)
Definition searchClips (db : ObjectStore) (query type_ : option JSString)
  (fault : option JSError) : Completion (list Clip) * ObjectStore :=
  let (r, db1) := getAllClips db fault in
  (clips <- r ;;
   Array_filter
     (fun clip =>
        let mt := matchesType type_ clip in
        mq <- matchesQuery query clip ;;
        Normal (mt && mq))
     clips,
   db1).

End Search.

End PastecaseDB.

(** ** Files and file readers *)

(** A [File] as the page sees it: its MIME type, name and size, and what the
    two reads deliver: its bytes decoded as text, and their base64 form. *)
Module File.
Record t := mk {
  type : JSString;
  name : JSString;
  size : N;
  text : JSString;
  base64 : JSString
}.
End File.

(** The result of [reader.readAsDataURL(file)]: a [data:] URL. *)
Definition readAsDataURL (file : File.t) : JSString :=
  js "data:" ++
  (if truthy (File.type file) then File.type file
   else js "application/octet-stream") ++
  js ";base64," ++ File.base64 file.

(** The result of [reader.readAsText(file)]. *)
Definition readAsText (file : File.t) : JSString := File.text file.

(** A read that was started, with what its [onload] handler captured. *)
Inductive Reader :=
| ModalImageReader (file : File.t) (tags : list JSString) (memo : JSString)
| DroppedImageReader (file : File.t)
| DroppedTextReader (file : File.t).

(** What the browser contributes to one save followed by a reload. *)
Record Engine := mkEngine {
  now1 : Z;
  now2 : Z;
  saveFault : option JSError;
  loadFault : option JSError
}.

(** ** class PastecaseApp *)

Module PastecaseApp.

Inductive ToastType := success | error.

Record Toast := mkToast {
  message : JSString;
  toastType : ToastType
}.

(** The elements of the page the methods read or write. *)
Record Dom := mkDom {
  text_content : JSString;
  text_tags : JSString;
  text_memo : JSString;
  text_modal_hidden : bool;
  image_input : option File.t;
  image_tags : JSString;
  image_memo : JSString;
  image_modal_hidden : bool;
  image_preview_hidden : bool;
  clips_container : list Clip;
  empty_state_hidden : bool
}.

Record App := mkApp {
  db : ObjectStore;
  clips : list Clip;
  currentSort : JSString;
  currentFilter : JSString;
  currentSearch : JSString;
  dom : Dom;
  toasts : list Toast;
  console : list (JSString * JSError);
  readers : list Reader
}.

Definition set_db (d : ObjectStore) (a : App) : App :=
  mkApp d (clips a) (currentSort a) (currentFilter a) (currentSearch a)
        (dom a) (toasts a) (console a) (readers a).

Definition set_clips (c : list Clip) (a : App) : App :=
  mkApp (db a) c (currentSort a) (currentFilter a) (currentSearch a)
        (dom a) (toasts a) (console a) (readers a).

Definition set_dom (d : Dom) (a : App) : App :=
  mkApp (db a) (clips a) (currentSort a) (currentFilter a) (currentSearch a)
        d (toasts a) (console a) (readers a).

Definition showToast (m : JSString) (t : ToastType) (a : App) : App :=
  mkApp (db a) (clips a) (currentSort a) (currentFilter a) (currentSearch a)
        (dom a) (toasts a ++ [mkToast m t]) (console a) (readers a).

Definition showSuccess (m : JSString) (a : App) : App := showToast m success a.

Definition showError (m : JSString) (a : App) : App := showToast m error a.

Definition console_error (label : JSString) (e : JSError) (a : App) : App :=
  mkApp (db a) (clips a) (currentSort a) (currentFilter a) (currentSearch a)
        (dom a) (toasts a) (console a ++ [(label, e)]) (readers a).

(** [reader.onload = ...; reader.readAs...(file)] *)
Definition startReader (r : Reader) (a : App) : App :=
  mkApp (db a) (clips a) (currentSort a) (currentFilter a) (currentSearch a)
        (dom a) (toasts a) (console a) (readers a ++ [r]).

(** The state the constructor sets up, over a page whose inputs are empty and
    whose overlays are hidden. *)
Definition constructor (d : ObjectStore) : App :=
  {| db := d; clips := [];
     currentSort := js "newest"; currentFilter := []; currentSearch := [];
     dom := mkDom [] [] [] true None [] [] true true [] false;
     toasts := []; console := []; readers := [] |}.

Definition hideTextModal (a : App) : App :=
  let d := dom a in
  set_dom (mkDom [] [] [] true
                 (image_input d) (image_tags d) (image_memo d)
                 (image_modal_hidden d) (image_preview_hidden d)
                 (clips_container d) (empty_state_hidden d)) a.

Definition hideImageModal (a : App) : App :=
  let d := dom a in
  set_dom (mkDom (text_content d) (text_tags d) (text_memo d)
                 (text_modal_hidden d)
                 None [] [] true true
                 (clips_container d) (empty_state_hidden d)) a.

(** [loadClips()] *)
Definition loadClips (a : App) (fault : option JSError) : App :=
  let (r, db1) := PastecaseDB.getAllClips (db a) fault in
  match r with
  | Normal cs => set_clips cs (set_db db1 a)
  | Throw e =>
      showError (js "Failed to load data")
        (console_error (js "Clip loading error:") e (set_db db1 a))
  end.

(** The comparator of [renderClips]:
    [currentSort === "newest" ? dateB - dateA : dateA - dateB] *)
Definition compareClips (sort : JSString) (a b : Clip) : Z :=
  let dateA := createdAt a in
  let dateB := createdAt b in
  if str_eqb sort (js "newest") then (dateB - dateA)%Z else (dateA - dateB)%Z.

Section View.

Variable toLowerCase : JSString -> JSString.

(** The three steps of [renderClips]: search filter, category filter, sort. *)
Definition filteredClips (a : App) : Completion (list Clip) :=
  f1 <- (if truthy (currentSearch a)
         then Array_filter
                (PastecaseDB.matchesText toLowerCase (Some (currentSearch a)))
                (clips a)
         else Normal (clips a)) ;;
  let f2 := if truthy (currentFilter a)
            then filter (fun clip =>
                           str_eqb (type (data clip)) (currentFilter a)) f1
            else f1 in
  Normal (Array_sort (compareClips (currentSort a)) f2).

(** [renderClips()].  [sort] works in place: when neither filter built a new
    array, the array it reorders is [this.clips] itself. *)
Definition renderClips (a : App) : Completion App :=
  shown <- filteredClips a ;;
  let a1 := if truthy (currentSearch a) || truthy (currentFilter a)
            then a else set_clips shown a in
  let d := dom a1 in
  Normal
    (set_dom (mkDom (text_content d) (text_tags d) (text_memo d)
                    (text_modal_hidden d)
                    (image_input d) (image_tags d) (image_memo d)
                    (image_modal_hidden d) (image_preview_hidden d)
                    shown
                    (negb (Nat.eqb (List.length shown) 0))) a1).

(** The pattern shared by the handlers that change the store: the awaited
    request [r], then [await this.loadClips(); this.renderClips();] and
    [finish].  A rejected request or a throw on the way runs [catch] on the
    state reached so far. *)
Definition thenReload {X} (r : Completion X) (a : App)
  (fault : option JSError) (finish : App -> App)
  (catch : JSError -> App -> App) : App :=
  match r with
  | Throw e => catch e a
  | Normal _ =>
      let a1 := loadClips a fault in
      match renderClips a1 with
      | Normal a2 => finish a2
      | Throw e => catch e a1
      end
  end.

(** [saveTextClip()] *)
Definition saveTextClip (a : App) (env : Engine) : App :=
  let content := trim (text_content (dom a)) in
  let tags := parseTags (text_tags (dom a)) in
  let memo := trim (text_memo (dom a)) in
  if negb (truthy content) then showError (js "Please enter some text") a
  else
    let (r, db1) :=
      PastecaseDB.saveClip (db a)
        {| type := js "text"; content := content; tags := tags;
           memo := Some memo; filename := None; filesize := None;
           mimeType := Some (js "text/plain") |}
        (now1 env) (now2 env) (saveFault env) in
    thenReload r (set_db db1 a) (loadFault env)
      (fun x => showSuccess (js "Text clip saved successfully")
                  (hideTextModal x))
      (fun e x => showError (js "Failed to save clip")
                    (console_error (js "Save error:") e x)).

(** [saveImageClip()], up to the start of the read. *)
Definition saveImageClip (a : App) : App :=
  let tags := parseTags (image_tags (dom a)) in
  let memo := trim (image_memo (dom a)) in
  match image_input (dom a) with
  | None => showError (js "Please select an image file") a
  | Some file => startReader (ModalImageReader file tags memo) a
  end.

(** The object a dropped image is saved as. *)
Definition droppedImage (file : File.t) : ClipData :=
  {| type := js "image"; content := readAsDataURL file;
     tags := [js "dropped-file"];
     memo := Some (js "Dropped image: " ++ File.name file);
     filename := Some (File.name file); filesize := Some (File.size file);
     mimeType := Some (File.type file) |}.

(** The object a dropped text file is saved as. *)
Definition droppedText (file : File.t) : ClipData :=
  {| type := js "text"; content := readAsText file;
     tags := [js "dropped-file"; js "text-file"];
     memo := Some (js "Dropped file: " ++ File.name file);
     filename := Some (File.name file); filesize := Some (File.size file);
     mimeType := Some (File.type file) |}.

(** The [onload] handler of a reader, run when its read has finished.  The
    handler of the image modal has a [try]/[catch] of its own; those of
    dropped files have none, so a throw ends them without a message. *)
Definition onload (a : App) (r : Reader) (env : Engine) : App :=
  match r with
  | ModalImageReader file tags memo =>
      let (c, db1) :=
        PastecaseDB.saveClip (db a)
          {| type := js "image"; content := readAsDataURL file; tags := tags;
             memo := Some memo; filename := Some (File.name file);
             filesize := Some (File.size file);
             mimeType := Some (File.type file) |}
          (now1 env) (now2 env) (saveFault env) in
      thenReload c (set_db db1 a) (loadFault env)
        (fun x => showSuccess (js "Image clip saved successfully")
                    (hideImageModal x))
        (fun e x => showError (js "Failed to save clip")
                      (console_error (js "Save error:") e x))
  | DroppedImageReader file =>
      let (c, db1) :=
        PastecaseDB.saveClip (db a) (droppedImage file)
          (now1 env) (now2 env) (saveFault env) in
      thenReload c (set_db db1 a) (loadFault env)
        (showSuccess (js "Image " ++ [34%N] ++ File.name file ++ [34%N]
                      ++ js " added successfully"))
        (fun _ x => x)
  | DroppedTextReader file =>
      let (c, db1) :=
        PastecaseDB.saveClip (db a) (droppedText file)
          (now1 env) (now2 env) (saveFault env) in
      thenReload c (set_db db1 a) (loadFault env)
        (showSuccess (js "Text file " ++ [34%N] ++ File.name file ++ [34%N]
                      ++ js " added successfully"))
        (fun _ x => x)
  end.

(** [deleteClip(id)]; [confirmed] is the answer to [confirm]. *)
Definition deleteClip (a : App) (key : Z) (confirmed : bool)
  (deleteFault loadFault : option JSError) : App :=
  if negb confirmed then a
  else
    let (r, db1) := PastecaseDB.deleteClip (db a) key deleteFault in
    thenReload r (set_db db1 a) loadFault
      (showSuccess (js "Clip deleted successfully"))
      (fun e x => showError (js "Failed to delete clip")
                    (console_error (js "Delete error:") e x)).

(** [processDroppedFile(file)], up to the start of the read. *)
Definition processDroppedFile (a : App) (file : File.t) : App :=
  let mimeType := File.type file in
  let fileName := File.name file in
  if startsWith mimeType (js "image/") then
    startReader (DroppedImageReader file) a
  else if startsWith mimeType (js "text/")
          || str_eqb mimeType (js "application/json")
          || endsWith fileName (js ".txt")
          || endsWith fileName (js ".md") then
    startReader (DroppedTextReader file) a
  else
    showError (js "Unsupported file type: "
               ++ (if truthy mimeType then mimeType else js "unknown")) a.

(** [handleDrop(e)]: [for (let file of files) await processDroppedFile(file)] *)
Definition handleDrop (a : App) (files : list File.t) : App :=
  fold_left processDroppedFile files a.

(** The reads finish in an order of the browser's choosing; each finished
    read runs its handler.  Handlers are taken one at a time: the store
    serialises their transactions in the order the handlers start, so the
    records are the same under any interleaving of their continuations. *)
Definition loadEvents (a : App) (events : list (Reader * Engine)) : App :=
  fold_left (fun x ev => onload x (fst ev) (snd ev)) events a.

Definition set_currentSearch (q : JSString) (a : App) : App :=
  mkApp (db a) (clips a) (currentSort a) (currentFilter a) q
        (dom a) (toasts a) (console a) (readers a).

Definition set_currentFilter (f : JSString) (a : App) : App :=
  mkApp (db a) (clips a) (currentSort a) f (currentSearch a)
        (dom a) (toasts a) (console a) (readers a).

Definition set_currentSort (s : JSString) (a : App) : App :=
  mkApp (db a) (clips a) s (currentFilter a) (currentSearch a)
        (dom a) (toasts a) (console a) (readers a).

(** [handleSearch(query)] *)
Definition handleSearch (a : App) (query : JSString) : Completion App :=
  renderClips (set_currentSearch query a).

(** [handleFilter(filter)] *)
Definition handleFilter (a : App) (filter : JSString) : Completion App :=
  renderClips (set_currentFilter filter a).

(** [handleSort(sort)] *)
Definition handleSort (a : App) (sort : JSString) : Completion App :=
  renderClips (set_currentSort sort a).

(** The click handler [showImagePreview] gives the delete button of the
    preview: it asks for confirmation, then calls [deleteClip], which asks
    again, and closes the preview without waiting for the deletion.  The
    second component tells whether the preview was closed. *)
Definition previewDeleteClick (a : App) (clip : Clip)
  (confirmed1 confirmed2 : bool) (deleteFault loadFault : option JSError)
  : App * bool :=
  if confirmed1
  then (deleteClip a (id clip) confirmed2 deleteFault loadFault, true)
  else (a, false).

End View.

(** The text [createTextContent] puts in the card:
    [content.length > 100 ? content.substring(0, 100) + "..." : content] *)
Definition truncatedContent (clip : Clip) : JSString :=
  if (100 <? List.length (content (data clip)))%nat
  then firstn 100 (content (data clip)) ++ js "..."
  else content (data clip).

Section Header.

(** [String.prototype.toUpperCase] *)
Variable toUpperCase : JSString -> JSString.

(** [v?.toUpperCase() || fallback] *)
Definition upperOr (v : option JSString) (fallback : JSString) : JSString :=
  match v with
  | Some s => if truthy (toUpperCase s) then toUpperCase s else fallback
  | None => fallback
  end.

(** The label [createCardHeader] computes for the type of a clip. *)
Definition typeText (clip : Clip) : JSString :=
  let d := data clip in
  let typeText := if str_eqb (type d) (js "text")
                  then js "Text" else js "Image" in
  match mimeType d with
  | Some m =>
      if truthy m then
        match filename d with
        | Some f =>
            if str_eqb (type d) (js "text") && truthy f then
              js "Text File (" ++ upperOr (pop (split_on 46 f)) (js "TXT")
              ++ js ")"
            else if str_eqb (type d) (js "image") then
              js "Image (" ++ upperOr (nth_error (split_on 47 m) 1) (js "IMG")
              ++ js ")"
            else typeText
        | None =>
            if str_eqb (type d) (js "image") then
              js "Image (" ++ upperOr (nth_error (split_on 47 m) 1) (js "IMG")
              ++ js ")"
            else typeText
        end
      else typeText
  | None => typeText
  end.

End Header.

End PastecaseApp.

(** ** Vocabulary of the specification *)

(** [Selects P l r]: [r] is [l] with exactly the elements that satisfy [P]
    kept, in their order and as often as they occur. *)
Inductive Selects {A} (P : A -> Prop) : list A -> list A -> Prop :=
| Selects_nil : Selects P [] []
| Selects_keep x l r : P x -> Selects P l r -> Selects P (x :: l) (x :: r)
| Selects_drop x l r : ~ P x -> Selects P l r -> Selects P (x :: l) r.

Section Vocabulary.

Variable toLowerCase : JSString -> JSString.

(** A case-insensitive substring match: the lowered query occurs in the
    lowered text. *)
Definition substring_ci (query text : JSString) : Prop :=
  exists pre post, toLowerCase text = pre ++ toLowerCase query ++ post.

(** The clip has the given type when a type filter is set. *)
Definition hasType (type_ : option JSString) (c : Clip) : Prop :=
  match type_ with
  | Some (u :: t) => type (data c) = u :: t
  | _ => True
  end.

(** The query matches the content, or the memo when there is one, or at
    least one tag. *)
Definition matchesBySpec (query : JSString) (c : Clip) : Prop :=
  substring_ci query (content (data c)) \/
  (exists m, memo (data c) = Some m /\ substring_ci query m) \/
  (exists tag, In tag (tags (data c)) /\ substring_ci query tag).

(** The value of the disjunction of [matchesText] once nothing throws. *)
Definition matchesTextb (query : JSString) (c : Clip) : bool :=
  includes (toLowerCase (content (data c))) (toLowerCase query)
  || match memo (data c) with
     | Some m => truthy m && includes (toLowerCase m) (toLowerCase query)
     | None => false
     end
  || existsb (fun tag => includes (toLowerCase tag) (toLowerCase query))
             (tags (data c)).

End Vocabulary.

(** Newest first: every clip is at least as recent as those after it. *)
Definition newestFirst (l : list Clip) : Prop :=
  StronglySorted (fun a b => (createdAt a >= createdAt b)%Z) l.

(** Oldest first. *)
Definition oldestFirst (l : list Clip) : Prop :=
  StronglySorted (fun a b => (createdAt a <= createdAt b)%Z) l.

(** What is saved with a clip: the object and its two timestamps. *)
Definition Saved : Type := ClipData * Z * Z.

Definition savedOf (c : Clip) : Saved := (data c, createdAt c, updatedAt c).

(** Saving the clips of a list one after the other, the engine accepting
    each request. *)
Definition saveAll (db : ObjectStore) (items : list Saved) : ObjectStore :=
  fold_left
    (fun d (it : Saved) =>
       snd (PastecaseDB.saveClip d (fst (fst it)) (snd (fst it)) (snd it) None))
    items db.

(** A history of calls to the wrapper, each with the engine's verdict. *)
Inductive Call :=
| SaveCall (d : ClipData) (now1 now2 : Z) (fault : option JSError)
| GetAllCall (fault : option JSError)
| DeleteCall (key : Z) (fault : option JSError).

(** Runs a history; returns the ids the successful saves resolved to, in
    the order of the calls, and the store reached. *)
Fixpoint run (db : ObjectStore) (calls : list Call) : list Z * ObjectStore :=
  match calls with
  | [] => ([], db)
  | SaveCall d t1 t2 f :: rest =>
      let (r, db1) := PastecaseDB.saveClip db d t1 t2 f in
      let (ids, db2) := run db1 rest in
      (match r with Normal k => k :: ids | Throw _ => ids end, db2)
  | GetAllCall f :: rest => run (snd (PastecaseDB.getAllClips db f)) rest
  | DeleteCall key f :: rest => run (snd (PastecaseDB.deleteClip db key f)) rest
  end.

(** The invariant of the object store: keys ascend along the records and
    lie below the key generator. *)
Definition store_wf (db : ObjectStore) : Prop :=
  StronglySorted (fun a b => (id a < id b)%Z) (records db)
  /\ Forall (fun c => (id c < keyGenerator db)%Z) (records db).

(** The records that saving [items] adds to a store whose key generator is
    at [key]: consecutive keys, in the order of the saves. *)
Fixpoint stamped (key : Z) (items : list Saved) : list Clip :=
  match items with
  | [] => []
  | it :: rest =>
      mkClip key (fst (fst it)) (snd (fst it)) (snd it)
      :: stamped (key + 1) rest
  end.

(** The object the [onload] handler of a reader hands to [saveClip]. *)
Definition payload (r : Reader) : ClipData :=
  match r with
  | ModalImageReader file tags memo =>
      {| type := js "image"; content := readAsDataURL file; tags := tags;
         memo := Some memo; filename := Some (File.name file);
         filesize := Some (File.size file);
         mimeType := Some (File.type file) |}
  | DroppedImageReader file => PastecaseApp.droppedImage file
  | DroppedTextReader file => PastecaseApp.droppedText file
  end.

(** The classes of dropped files: an image by its MIME type; a text file by
    its MIME type or by its extension; anything else is not supported. *)
Definition isImageFile (f : File.t) : Prop :=
  exists rest, File.type f = js "image/" ++ rest.

Definition isTextFile (f : File.t) : Prop :=
  ~ isImageFile f
  /\ ((exists rest, File.type f = js "text/" ++ rest)
      \/ File.type f = js "application/json"
      \/ (exists stem, File.name f = stem ++ js ".txt")
      \/ (exists stem, File.name f = stem ++ js ".md")).

Definition isUnsupported (f : File.t) : Prop :=
  ~ isImageFile f /\ ~ isTextFile f.

(** The reader started for a file of a supported class. *)
Definition readerFor (f : File.t) (r : Reader) : Prop :=
  (isImageFile f /\ r = DroppedImageReader f)
  \/ (isTextFile f /\ r = DroppedTextReader f).

(** The notification a file that is not supported is answered with. *)
Definition unsupportedToast (f : File.t) : PastecaseApp.Toast :=
  PastecaseApp.mkToast
    (js "Unsupported file type: "
     ++ (if truthy (File.type f) then File.type f else js "unknown"))
    PastecaseApp.error.

(** The objects of the add requests among [rs]. *)
Definition addedObjects (rs : list IDBRequest) : list ClipData :=
  flat_map (fun r => match r with
                     | AddRequest d _ _ => [d]
                     | _ => []
                     end) rs.

(** A text file with no content, as a drop delivers it. *)
Definition emptyTextFile : File.t :=
  File.mk (js "text/plain") (js "empty.txt") 0 [] [].

(** The clip a supported file is saved as carries the tag of its class. *)
Definition taggedFor (f : File.t) (d : ClipData) : Prop :=
  filename d = Some (File.name f)
  /\ (isImageFile f ->
      type d = js "image" /\ tags d = [js "dropped-file"]
      /\ content d = readAsDataURL f)
  /\ (isTextFile f ->
      type d = js "text" /\ tags d = [js "dropped-file"; js "text-file"]
      /\ content d = readAsText f).

(** What the user does to the view: types in the search box, picks a
    category, picks a sort order. *)
Inductive ViewEvent :=
| SearchInput (query : JSString)
| FilterChange (filter : JSString)
| SortChange (sort : JSString).

Section ViewEvents.

Variable toLowerCase : JSString -> JSString.

Definition viewEvent (a : PastecaseApp.App) (ev : ViewEvent)
  : Completion PastecaseApp.App :=
  match ev with
  | SearchInput q => PastecaseApp.handleSearch toLowerCase a q
  | FilterChange f => PastecaseApp.handleFilter toLowerCase a f
  | SortChange s => PastecaseApp.handleSort toLowerCase a s
  end.

(** The events of a list, one after the other. *)
Fixpoint viewEvents (a : PastecaseApp.App) (evs : list ViewEvent)
  : Completion PastecaseApp.App :=
  match evs with
  | [] => Normal a
  | ev :: rest => a1 <- viewEvent a ev ;; viewEvents a1 rest
  end.

End ViewEvents.

(** The list shown. *)
Definition shown (a : PastecaseApp.App) : list Clip :=
  PastecaseApp.clips_container (PastecaseApp.dom a).

(** A string has no white space at either end. *)
Definition trimmed (s : JSString) : Prop :=
  match s with
  | [] => True
  | c :: _ => isWhiteSpace c = false /\ isWhiteSpace (last s c) = false
  end.

(** A tag as the modals store it: not empty, no white space around it, no
    comma in it. *)
Definition cleanTag (t : JSString) : Prop :=
  t <> [] /\ trimmed t /\ ~ In 44%N t.

Section ViewClosedForm.

Variable toLowerCase : JSString -> JSString.

(** The list [renderClips] shows, in closed form: the clips that pass both
    tests, sorted. *)
Definition viewOf (a : PastecaseApp.App) : list Clip :=
  Array_sort (PastecaseApp.compareClips (PastecaseApp.currentSort a))
    (filter
       (fun c =>
          (negb (truthy (PastecaseApp.currentSearch a))
           || matchesTextb toLowerCase (PastecaseApp.currentSearch a) c)
          && PastecaseDB.matchesType (Some (PastecaseApp.currentFilter a)) c)
       (PastecaseApp.clips a)).

(** The state [renderClips] leaves, in closed form. *)
Definition rendered (a : PastecaseApp.App) : PastecaseApp.App :=
  let d := PastecaseApp.dom a in
  PastecaseApp.mkApp (PastecaseApp.db a)
    (if truthy (PastecaseApp.currentSearch a)
        || truthy (PastecaseApp.currentFilter a)
     then PastecaseApp.clips a else viewOf a)
    (PastecaseApp.currentSort a) (PastecaseApp.currentFilter a)
    (PastecaseApp.currentSearch a)
    (PastecaseApp.mkDom
       (PastecaseApp.text_content d) (PastecaseApp.text_tags d)
       (PastecaseApp.text_memo d) (PastecaseApp.text_modal_hidden d)
       (PastecaseApp.image_input d) (PastecaseApp.image_tags d)
       (PastecaseApp.image_memo d) (PastecaseApp.image_modal_hidden d)
       (PastecaseApp.image_preview_hidden d)
       (viewOf a)
       (negb (Nat.eqb (List.length (viewOf a)) 0)))
    (PastecaseApp.toasts a) (PastecaseApp.console a) (PastecaseApp.readers a).

End ViewClosedForm.

(** The setting a view event changes. *)
Definition setView (ev : ViewEvent) (a : PastecaseApp.App)
  : PastecaseApp.App :=
  match ev with
  | SearchInput q => PastecaseApp.set_currentSearch q a
  | FilterChange f => PastecaseApp.set_currentFilter f a
  | SortChange s => PastecaseApp.set_currentSort s a
  end.

(** The part of a file name after its last dot; the whole name when it has
    no dot. *)
Definition extensionOf (f ext : JSString) : Prop :=
  (~ In 46%N f /\ ext = f)
  \/ (exists stem, f = stem ++ 46%N :: ext /\ ~ In 46%N ext).

(** ** Sample data *)

Definition helloClip : Clip :=
  mkClip 1
    (mkClipData (js "text") (js "Hello World") [js "greeting"] (Some [])
                None None (Some (js "text/plain")))
    1000 1000.

Definition photoClip : Clip :=
  mkClip 2
    (mkClipData (js "image") (js "data:image/png;base64,iVBORw0KGgo=")
                [js "Holiday"] None (Some (js "beach.png")) (Some 8%N)
                (Some (js "image/png")))
    2000 2001.

Definition noteClip : Clip :=
  mkClip 3
    (mkClipData (js "text") (js "shopping list") [] (Some (js "for Friday"))
                None None (Some (js "text/plain")))
    3000 3000.

Definition sampleStore : ObjectStore :=
  mkDB [helloClip; photoClip; noteClip] 4 [].

Definition pngFile : File.t :=
  File.mk (js "image/png") (js "beach.png") 8 [] (js "iVBORw0KGgo=").

Definition zipFile : File.t :=
  File.mk (js "application/zip") (js "archive.zip") 22 [] (js "UEsFBg==").

Definition notesFile : File.t :=
  File.mk [] (js "notes.md") 5 (js "hello") (js "aGVsbG8=").

(** The ASCII part of the upper-case mapping, for concrete strings. *)
Definition asciiToUpperCase (s : JSString) : JSString :=
  map (fun c => if (97 <=? c)%N && (c <=? 122)%N then (c - 32)%N else c) s.

Definition twinClip : Clip :=
  mkClip 4
    (mkClipData (js "text") (js "second at the same instant") [] (Some [])
                None None (Some (js "text/plain")))
    2000 2000.

Definition longClip : Clip :=
  mkClip 5
    (mkClipData (js "text") (repeat 97%N 150) [] (Some [])
                None None (Some (js "text/plain")))
    4000 4000.

Definition markdownClip : Clip :=
  mkClip 6
    (mkClipData (js "text") (js "# title") [js "dropped-file"; js "text-file"]
                (Some (js "Dropped file: notes.v2.md"))
                (Some (js "notes.v2.md")) (Some 7%N)
                (Some (js "text/markdown")))
    5000 5000.

Definition typingPage : PastecaseApp.Dom :=
  PastecaseApp.mkDom (js "  hello ") (js "a, b") (js " note ") false
    None [] [] true true [] false.

Definition typingApp : PastecaseApp.App :=
  PastecaseApp.set_dom typingPage
    (PastecaseApp.set_clips (records sampleStore)
       (PastecaseApp.constructor sampleStore)).

Definition quotaExceeded : JSError := DOMException "QuotaExceededError".

(** * Properties *)

(** ** Strings *)

Lemma str_eqb_eq (a b : JSString) : str_eqb a b = true <-> a = b.
Proof.
  revert b; induction a as [|x a IH]; intros [|y b]; simpl;
    try (split; congruence).
  rewrite andb_true_iff, N.eqb_eq, IH.
  split; [intros [-> ->]; reflexivity | intros H; inversion H; auto].
Qed.

Lemma str_eqb_refl (a : JSString) : str_eqb a a = true.
Proof. apply str_eqb_eq; reflexivity. Qed.

Lemma str_eqb_neq (a b : JSString) : str_eqb a b = false <-> a <> b.
Proof.
  destruct (str_eqb a b) eqn:E.
  - apply str_eqb_eq in E; split; [discriminate | contradiction].
  - split; [intros _ H; apply str_eqb_eq in H; congruence | reflexivity].
Qed.

Lemma startsWith_prefix (s p : JSString) :
  startsWith s p = true <-> exists rest, s = p ++ rest.
Proof.
  revert s; induction p as [|y p IH]; intros s; simpl.
  - split; [intros _; exists s; reflexivity | reflexivity].
  - destruct s as [|x s].
    + split; [discriminate | intros [rest H]; discriminate].
    + rewrite andb_true_iff, N.eqb_eq, IH. split.
      * intros [-> [rest ->]]. exists rest; reflexivity.
      * intros [rest H]. inversion H; subst. split; [reflexivity | eauto].
Qed.

Lemma includes_substring (s q : JSString) :
  includes s q = true <-> exists pre post, s = pre ++ q ++ post.
Proof.
  induction s as [|x s IH]; simpl.
  - rewrite orb_false_r, startsWith_prefix. split.
    + intros [rest H]. exists [], rest. exact H.
    + intros [pre [post H]]. symmetry in H.
      apply app_eq_nil in H as [-> H]. exists post. symmetry; exact H.
  - rewrite orb_true_iff, IH, startsWith_prefix. split.
    + intros [[rest H] | [pre [post H]]].
      * exists [], rest. exact H.
      * exists (x :: pre), post. simpl; rewrite H; reflexivity.
    + intros [[|y pre] [post H]].
      * left. exists post. exact H.
      * right. inversion H; subst. eauto.
Qed.

Lemma includes_empty (s : JSString) : includes s [] = true.
Proof. apply includes_substring. exists [], s. reflexivity. Qed.

Lemma trimStart_blank (s : JSString) :
  forallb isWhiteSpace s = true -> trimStart s = [].
Proof.
  induction s as [|c s IH]; simpl; [reflexivity|].
  intros H. apply andb_true_iff in H as [-> H]. auto.
Qed.

Lemma trim_blank (s : JSString) :
  forallb isWhiteSpace s = true -> trim s = [].
Proof.
  intros H. unfold trim. rewrite (trimStart_blank _ H). reflexivity.
Qed.

Lemma trimStart_nil_blank (s : JSString) :
  trimStart s = [] -> forallb isWhiteSpace s = true.
Proof.
  induction s as [|c s IH]; simpl; [reflexivity|].
  destruct (isWhiteSpace c); [auto | discriminate].
Qed.

Lemma trim_nil_iff (s : JSString) :
  trim s = [] <-> forallb isWhiteSpace s = true.
Proof.
  split; [|apply trim_blank].
  unfold trim. intros H.
  assert (H1 : trimStart (rev (trimStart s)) = []).
  { destruct (trimStart (rev (trimStart s))) as [|c r]; [reflexivity|].
    simpl in H. destruct (rev r); discriminate. }
  apply trimStart_nil_blank in H1.
  rewrite forallb_forall in H1.
  assert (H2 : trimStart s = []).
  { destruct (trimStart s) as [|c r] eqn:E; [reflexivity|].
    assert (Hc : isWhiteSpace c = true).
    { apply H1. rewrite <- in_rev. left; reflexivity. }
    clear H H1. exfalso. revert c r E Hc.
    induction s as [|x s IH]; simpl; intros c r E Hc; [discriminate|].
    destruct (isWhiteSpace x) eqn:Ex; [eauto|].
    inversion E; subst. congruence. }
  apply trimStart_nil_blank; exact H2.
Qed.

(** ** Selection *)

Lemma Selects_filter {A} (P : A -> Prop) (p : A -> bool) (l : list A) :
  (forall x, In x l -> (p x = true <-> P x)) -> Selects P l (filter p l).
Proof.
  induction l as [|x l IH]; intros H; simpl; [constructor|].
  assert (Hl : Selects P l (filter p l)) by (apply IH; intros; apply H; right; auto).
  destruct (p x) eqn:E.
  - apply Selects_keep; [apply H; [left; reflexivity | exact E] | exact Hl].
  - apply Selects_drop; [|exact Hl].
    intros HP. apply H in HP; [congruence | left; reflexivity].
Qed.

Lemma Selects_In {A} (P : A -> Prop) (l r : list A) :
  Selects P l r -> forall x, In x r <-> In x l /\ P x.
Proof.
  induction 1 as [|x l r HP _ IH|x l r HP _ IH]; intros y; simpl.
  - tauto.
  - rewrite IH. split.
    + intros [<- | [H1 H2]]; auto.
    + intros [[<- | H1] H2]; auto.
  - rewrite IH. split.
    + intros [H1 H2]; auto.
    + intros [[<- | H1] H2]; [contradiction | auto].
Qed.

Lemma Selects_all {A} (P : A -> Prop) (l : list A) :
  (forall x, In x l -> P x) -> Selects P l l.
Proof.
  induction l as [|x l IH]; intros H; constructor.
  - apply H; left; reflexivity.
  - apply IH; intros; apply H; right; auto.
Qed.

Lemma Selects_length {A} (P : A -> Prop) (l r : list A) :
  Selects P l r -> (List.length r <= List.length l)%nat.
Proof. induction 1; simpl; lia. Qed.

(** ** Callbacks that do not throw *)

Lemma Array_filter_pure {A} (f : A -> Completion bool) (p : A -> bool) l :
  (forall x, In x l -> f x = Normal (p x)) ->
  Array_filter f l = Normal (filter p l).
Proof.
  induction l as [|x l IH]; intros H; simpl; [reflexivity|].
  rewrite (H x (or_introl eq_refl)), IH by (intros; apply H; right; auto).
  simpl. destruct (p x); reflexivity.
Qed.

Lemma Array_some_pure {A} (f : A -> Completion bool) (p : A -> bool) l :
  (forall x, In x l -> f x = Normal (p x)) ->
  Array_some f l = Normal (existsb p l).
Proof.
  induction l as [|x l IH]; intros H; simpl; [reflexivity|].
  rewrite (H x (or_introl eq_refl)). simpl.
  destruct (p x); [reflexivity|].
  apply IH; intros; apply H; right; auto.
Qed.

(** ** The search predicate *)

Section SearchProperties.

Variable toLowerCase : JSString -> JSString.

Lemma includes_ci_substring (text query : JSString) :
  includes (toLowerCase text) (toLowerCase query) = true
  <-> substring_ci toLowerCase query text.
Proof. apply includes_substring. Qed.

Lemma matchesText_pure (query : JSString) (c : Clip) :
  PastecaseDB.matchesText toLowerCase (Some query) c
  = Normal (matchesTextb toLowerCase query c).
Proof.
  unfold PastecaseDB.matchesText, matchesTextb, PastecaseDB.includes_ci.
  simpl.
  destruct (includes (toLowerCase (content (data c))) (toLowerCase query));
    simpl; [reflexivity|].
  rewrite (Array_some_pure _
             (fun tag => includes (toLowerCase tag) (toLowerCase query)))
    by reflexivity.
  destruct (memo (data c)) as [[|u m]|]; simpl; try reflexivity.
  destruct (includes (toLowerCase (u :: m)) (toLowerCase query)); reflexivity.
Qed.

Lemma matchesQuery_pure (query : JSString) (c : Clip) :
  PastecaseDB.matchesQuery toLowerCase (Some query) c
  = Normal (negb (truthy query) || matchesTextb toLowerCase query c).
Proof.
  unfold PastecaseDB.matchesQuery, js_or. simpl.
  destruct (truthy query); simpl; [apply matchesText_pure | reflexivity].
Qed.

Lemma matchesQuery_falsy (query : option JSString) (c : Clip) :
  truthy_opt query = false ->
  PastecaseDB.matchesQuery toLowerCase query c = Normal true.
Proof.
  intros H. unfold PastecaseDB.matchesQuery, js_or. simpl. rewrite H.
  reflexivity.
Qed.

Lemma existsb_tags_spec (query : JSString) (l : list JSString) :
  existsb (fun tag => includes (toLowerCase tag) (toLowerCase query)) l = true
  <-> exists tag, In tag l /\ substring_ci toLowerCase query tag.
Proof.
  rewrite existsb_exists. split; intros [tag [H1 H2]]; exists tag;
    (split; [exact H1 | apply includes_ci_substring; exact H2]).
Qed.

Lemma matchesType_spec (type_ : option JSString) (c : Clip) :
  PastecaseDB.matchesType type_ c = true <-> hasType type_ c.
Proof.
  unfold PastecaseDB.matchesType, hasType.
  destruct type_ as [[|u t]|]; simpl; try tauto.
  apply str_eqb_eq.
Qed.

End SearchProperties.

Section SearchClaims.

Variable toLowerCase : JSString -> JSString.

Lemma searchClips_filter (db : ObjectStore) (query : JSString)
  (type_ : option JSString) :
  fst (PastecaseDB.searchClips toLowerCase db (Some query) type_ None)
  = Normal (filter (fun c => PastecaseDB.matchesType type_ c
                             && (negb (truthy query)
                                 || matchesTextb toLowerCase query c))
                   (records db)).
Proof.
  unfold PastecaseDB.searchClips. simpl.
  apply Array_filter_pure. intros c _.
  rewrite matchesQuery_pure. reflexivity.
Qed.

Lemma searchClips_no_query (db : ObjectStore)
  (query type_ : option JSString) :
  truthy_opt query = false ->
  fst (PastecaseDB.searchClips toLowerCase db query type_ None)
  = Normal (filter (PastecaseDB.matchesType type_) (records db)).
Proof.
  intros H. unfold PastecaseDB.searchClips. simpl.
  apply Array_filter_pure. intros c _.
  rewrite matchesQuery_falsy by exact H. simpl.
  rewrite andb_true_r. reflexivity.
Qed.

Lemma filter_true {A} (p : A -> bool) (l : list A) :
  (forall x, In x l -> p x = true) -> filter p l = l.
Proof.
  induction l as [|x l IH]; intros H; simpl; [reflexivity|].
  rewrite (H x (or_introl eq_refl)), IH; [reflexivity|].
  intros; apply H; right; auto.
Qed.

Lemma matchesTextb_spec (query : JSString) (c : Clip) :
  toLowerCase [] = [] ->
  (negb (truthy query) || matchesTextb toLowerCase query c = true
   <-> matchesBySpec toLowerCase query c).
Proof.
  intros Hnil. unfold matchesTextb, matchesBySpec.
  rewrite !orb_true_iff, includes_ci_substring, existsb_tags_spec.
  split.
  - intros [Hq | [[H | H] | H]]; auto.
    + left. destruct query; [|discriminate].
      exists [], (toLowerCase (content (data c))).
      rewrite Hnil. reflexivity.
    + right; left. destruct (memo (data c)) as [m|]; [|discriminate].
      apply andb_true_iff in H as [_ H].
      exists m. split; [reflexivity | apply includes_ci_substring; exact H].
  - intros [H | [[m [Hm H]] | H]]; auto.
    rewrite Hm. destruct m as [|u m].
    + right; left; left.
      destruct H as [pre [post H]]. rewrite Hnil in H. symmetry in H.
      apply app_eq_nil in H as [_ H]. apply app_eq_nil in H as [H _].
      exists [], (toLowerCase (content (data c))). rewrite H. reflexivity.
    + right; left; right. simpl. apply includes_ci_substring; exact H.
Qed.

(** C1. With the store's records [all], a search for the string [query]
    under the optional type filter [type_] resolves to exactly the clips of
    [all] that have the given type when a filter is set and that match the
    query, case-insensitively, in the content, or in the memo when there is
    one, or in at least one tag; a clip of the right type with a matching tag
    is therefore returned whatever its content and memo are.  The one fact
    used about the case mapping is that it maps the empty string to itself. *)
Theorem search_returns_the_matching_clips
  (lower_empty : toLowerCase [] = [])
  (db : ObjectStore) (query : JSString) (type_ : option JSString) :
  exists r,
    fst (PastecaseDB.searchClips toLowerCase db (Some query) type_ None)
    = Normal r
    /\ Selects (fun c => hasType type_ c /\ matchesBySpec toLowerCase query c)
               (records db) r
    /\ (forall c, In c r <->
                  In c (records db) /\ hasType type_ c
                  /\ matchesBySpec toLowerCase query c)
    /\ (forall c tag,
          In c (records db) -> hasType type_ c ->
          In tag (tags (data c)) -> substring_ci toLowerCase query tag ->
          In c r).
Proof.
  eexists. split; [apply searchClips_filter|].
  assert (S : Selects
                (fun c => hasType type_ c /\ matchesBySpec toLowerCase query c)
                (records db)
                (filter (fun c => PastecaseDB.matchesType type_ c
                                  && (negb (truthy query)
                                      || matchesTextb toLowerCase query c))
                        (records db))).
  { apply Selects_filter. intros c _.
    rewrite andb_true_iff, matchesType_spec, matchesTextb_spec by assumption.
    reflexivity. }
  split; [exact S|].
  pose proof (Selects_In S) as HIn.
  split; [exact HIn|].
  intros c tag Hc Ht Htag Hsub. apply HIn.
  repeat split; auto. right; right. exists tag; auto.
Qed.

(** C9. A search whose query is [null] or the empty string resolves to every
    stored clip when no type is given, and to exactly the clips of type [t]
    when a type [t] is given.  The query test is skipped: the predicate
    answers [true] for every clip without consulting the case mapping, of
    which nothing is assumed here. *)
Theorem search_without_query_matches_every_clip
  (db : ObjectStore) (u : N) (t : JSString) :
  fst (PastecaseDB.searchClips toLowerCase db None None None)
  = Normal (records db)
  /\ fst (PastecaseDB.searchClips toLowerCase db (Some []) None None)
     = Normal (records db)
  /\ (exists r,
        fst (PastecaseDB.searchClips toLowerCase db None (Some (u :: t)) None)
        = Normal r
        /\ fst (PastecaseDB.searchClips toLowerCase db (Some [])
                  (Some (u :: t)) None)
           = Normal r
        /\ Selects (fun c => type (data c) = u :: t) (records db) r)
  /\ (forall c,
        PastecaseDB.matchesQuery toLowerCase None c = Normal true
        /\ PastecaseDB.matchesQuery toLowerCase (Some []) c = Normal true).
Proof.
  split; [|split; [|split]].
  - rewrite searchClips_no_query by reflexivity.
    rewrite filter_true; reflexivity.
  - rewrite searchClips_no_query by reflexivity.
    rewrite filter_true; reflexivity.
  - exists (filter (PastecaseDB.matchesType (Some (u :: t))) (records db)).
    split; [|split].
    + apply searchClips_no_query; reflexivity.
    + apply searchClips_no_query; reflexivity.
    + apply Selects_filter. intros c _.
      apply (matchesType_spec (Some (u :: t)) c).
  - intros c. split; apply matchesQuery_falsy; reflexivity.
Qed.

(** C10. On a clip whose memo is absent or empty the search predicate always
    completes with a boolean (for any query, [null] included, and likewise
    the filter of the view for any search text), and for a non-empty query
    it answers [true] exactly when the content or one of the tags contains
    the query case-insensitively. *)
Theorem search_predicate_total_without_memo
  (c : Clip) (no_memo : memo (data c) = None \/ memo (data c) = Some []) :
  (forall query, exists b,
      PastecaseDB.matchesQuery toLowerCase query c = Normal b)
  /\ (forall search, exists b,
        PastecaseDB.matchesText toLowerCase (Some search) c = Normal b)
  /\ (forall query, query <> [] ->
        (PastecaseDB.matchesQuery toLowerCase (Some query) c = Normal true
         <-> substring_ci toLowerCase query (content (data c))
             \/ exists tag, In tag (tags (data c))
                            /\ substring_ci toLowerCase query tag)).
Proof.
  split; [|split].
  - intros [query|].
    + rewrite matchesQuery_pure. eauto.
    + rewrite matchesQuery_falsy by reflexivity. eauto.
  - intros search. rewrite matchesText_pure. eauto.
  - intros query Hq. rewrite matchesQuery_pure.
    destruct query as [|q0 query]; [congruence|]. simpl.
    unfold matchesTextb.
    assert (Hm : match memo (data c) with
                 | Some m => truthy m
                             && includes (toLowerCase m)
                                  (toLowerCase (q0 :: query))
                 | None => false
                 end = false).
    { destruct no_memo as [-> | ->]; reflexivity. }
    rewrite Hm, orb_false_r.
    split.
    + intros H. injection H as H.
      apply orb_true_iff in H.
      rewrite includes_ci_substring, existsb_tags_spec in H. exact H.
    + intros H. f_equal.
      apply orb_true_iff.
      rewrite includes_ci_substring, existsb_tags_spec. exact H.
Qed.

End SearchClaims.

(** ** Sorting *)

Section Sorting.

Context {A : Type} (cmp : A -> A -> Z).

Lemma sort_insert_perm (x : A) (l : list A) :
  Permutation (x :: l) (sort_insert cmp x l).
Proof.
  induction l as [|y l IH]; simpl; [reflexivity|].
  destruct (cmp x y <=? 0)%Z; [reflexivity|].
  rewrite perm_swap. apply perm_skip. exact IH.
Qed.

Lemma Array_sort_perm (l : list A) : Permutation l (Array_sort cmp l).
Proof.
  induction l as [|x l IH]; simpl; [reflexivity|].
  rewrite <- sort_insert_perm. apply perm_skip. exact IH.
Qed.

Variable R : A -> A -> Prop.
Hypothesis R_before : forall a b, (cmp a b <= 0)%Z -> R a b.
Hypothesis R_after : forall a b, (cmp a b > 0)%Z -> R b a.
Hypothesis R_trans : forall a b c, R a b -> R b c -> R a c.

Lemma sort_insert_sorted (x : A) (l : list A) :
  StronglySorted R l -> StronglySorted R (sort_insert cmp x l).
Proof.
  induction 1 as [|y l Hl IH Hy]; simpl.
  - repeat constructor.
  - destruct (Z.leb_spec (cmp x y) 0) as [Hc | Hc].
    + constructor; [constructor; assumption|].
      constructor; [apply R_before; exact Hc|].
      rewrite Forall_forall in Hy |- *. intros z Hz.
      apply R_trans with y; [apply R_before; exact Hc | apply Hy; exact Hz].
    + constructor; [exact IH|].
      rewrite Forall_forall in Hy |- *. intros z Hz.
      apply Permutation_in with (l' := x :: l) in Hz;
        [|symmetry; apply sort_insert_perm].
      destruct Hz as [<- | Hz]; [apply R_after; lia | apply Hy; exact Hz].
Qed.

Lemma Array_sort_sorted (l : list A) : StronglySorted R (Array_sort cmp l).
Proof.
  induction l as [|x l IH]; simpl; [constructor|].
  apply sort_insert_sorted; exact IH.
Qed.

End Sorting.

Lemma sort_newest (sort : JSString) (l : list Clip) :
  sort = js "newest" ->
  newestFirst (Array_sort (PastecaseApp.compareClips sort) l).
Proof.
  intros ->. apply Array_sort_sorted.
  - unfold PastecaseApp.compareClips. intros a b. rewrite str_eqb_refl. lia.
  - unfold PastecaseApp.compareClips. intros a b. rewrite str_eqb_refl. lia.
  - intros a b c. lia.
Qed.

Lemma sort_oldest (sort : JSString) (l : list Clip) :
  sort <> js "newest" ->
  oldestFirst (Array_sort (PastecaseApp.compareClips sort) l).
Proof.
  intros H. apply str_eqb_neq in H. apply Array_sort_sorted.
  - unfold PastecaseApp.compareClips. intros a b. rewrite H. lia.
  - unfold PastecaseApp.compareClips. intros a b. rewrite H. lia.
  - intros a b c. lia.
Qed.

(** Three clips of distinct ages have one arrangement in each order. *)
Lemma three_clips_in_order (R : Clip -> Clip -> Prop) (x y z : Clip)
  (l : list Clip) :
  x <> y -> y <> z -> x <> z ->
  R x y -> R y z -> R x z -> ~ R y x -> ~ R z y -> ~ R z x ->
  Permutation l [x; y; z] -> StronglySorted R l -> l = [x; y; z].
Proof.
  intros Hxy Hyz Hxz Rxy Ryz Rxz Nyx Nzy Nzx HP HS.
  assert (ND : NoDup l).
  { apply Permutation_NoDup with (l := [x; y; z]); [symmetry; exact HP|].
    repeat constructor; simpl; intuition congruence. }
  pose proof (Permutation_length HP) as HL.
  destruct l as [|a [|b [|c [|d l]]]]; try discriminate.
  assert (Ha : In a [x; y; z]) by (apply (Permutation_in _ HP); simpl; auto).
  assert (Hb : In b [x; y; z]) by (apply (Permutation_in _ HP); simpl; auto).
  assert (Hc : In c [x; y; z]) by (apply (Permutation_in _ HP); simpl; auto).
  inversion HS as [|? ? HS1 F1]; subst.
  inversion HS1 as [|? ? _ F2]; subst.
  inversion F1 as [|? ? Rab F1']; subst. inversion F1' as [|? ? Rac _]; subst.
  inversion F2 as [|? ? Rbc _]; subst.
  inversion ND as [|? ? Nab ND1]; subst. inversion ND1 as [|? ? Nbc _]; subst.
  simpl in Ha, Hb, Hc, Nab, Nbc.
  destruct Ha as [<- | [<- | [<- | []]]];
    destruct Hb as [<- | [<- | [<- | []]]];
    destruct Hc as [<- | [<- | [<- | []]]];
    try reflexivity; try contradiction; exfalso; tauto.
Qed.

(** ** The derived view *)

Section ViewProperties.

Variable toLowerCase : JSString -> JSString.

Lemma filteredClips_pure (a : PastecaseApp.App) :
  PastecaseApp.filteredClips toLowerCase a
  = Normal
      (Array_sort (PastecaseApp.compareClips (PastecaseApp.currentSort a))
         (let f1 := if truthy (PastecaseApp.currentSearch a)
                    then filter (matchesTextb toLowerCase
                                   (PastecaseApp.currentSearch a))
                                (PastecaseApp.clips a)
                    else PastecaseApp.clips a in
          if truthy (PastecaseApp.currentFilter a)
          then filter (fun clip => str_eqb (type (data clip))
                                     (PastecaseApp.currentFilter a)) f1
          else f1)).
Proof.
  unfold PastecaseApp.filteredClips.
  destruct (truthy (PastecaseApp.currentSearch a)); simpl; [|reflexivity].
  rewrite (Array_filter_pure _
             (matchesTextb toLowerCase (PastecaseApp.currentSearch a)))
    by (intros; apply matchesText_pure).
  reflexivity.
Qed.

Lemma renderClips_normal (a : PastecaseApp.App) :
  exists a',
    PastecaseApp.renderClips toLowerCase a = Normal a'
    /\ PastecaseApp.filteredClips toLowerCase a
       = Normal (PastecaseApp.clips_container (PastecaseApp.dom a'))
    /\ PastecaseApp.db a' = PastecaseApp.db a
    /\ PastecaseApp.toasts a' = PastecaseApp.toasts a
    /\ PastecaseApp.console a' = PastecaseApp.console a
    /\ PastecaseApp.readers a' = PastecaseApp.readers a.
Proof.
  unfold PastecaseApp.renderClips.
  rewrite filteredClips_pure. simpl.
  eexists. split; [reflexivity|].
  destruct (truthy (PastecaseApp.currentSearch a)
            || truthy (PastecaseApp.currentFilter a)); simpl; auto.
Qed.

(** C2. The list [renderClips] shows is ordered by [createdAt]: newest first
    when the sort order is ["newest"], oldest first for any other value.  In
    particular three clips created at [t1 < t2 < t3], loaded in any order and
    shown without search text or category filter, appear as [t3, t2, t1]
    under ["newest"] and as [t1, t2, t3] otherwise. *)
Theorem view_is_sorted_by_createdAt (a : PastecaseApp.App) :
  exists a',
    PastecaseApp.renderClips toLowerCase a = Normal a'
    /\ (PastecaseApp.currentSort a = js "newest" ->
        newestFirst (PastecaseApp.clips_container (PastecaseApp.dom a')))
    /\ (PastecaseApp.currentSort a <> js "newest" ->
        oldestFirst (PastecaseApp.clips_container (PastecaseApp.dom a')))
    /\ (forall c1 c2 c3,
          (createdAt c1 < createdAt c2 < createdAt c3)%Z ->
          Permutation (PastecaseApp.clips a) [c1; c2; c3] ->
          PastecaseApp.currentSearch a = [] ->
          PastecaseApp.currentFilter a = [] ->
          (PastecaseApp.currentSort a = js "newest" ->
           PastecaseApp.clips_container (PastecaseApp.dom a') = [c3; c2; c1])
          /\ (PastecaseApp.currentSort a <> js "newest" ->
              PastecaseApp.clips_container (PastecaseApp.dom a')
              = [c1; c2; c3])).
Proof.
  destruct (renderClips_normal a) as [a' [Hr [Hf _]]].
  exists a'. split; [exact Hr|].
  rewrite filteredClips_pure in Hf. injection Hf as Hf.
  split; [|split].
  - intros Hs. rewrite <- Hf. apply sort_newest; exact Hs.
  - intros Hs. rewrite <- Hf. apply sort_oldest; exact Hs.
  - intros c1 c2 c3 Ht HP Hsearch Hfilter.
    rewrite Hsearch, Hfilter in Hf. simpl in Hf.
    assert (HP' : forall l, Permutation l [c1; c2; c3] ->
                            Permutation l [c3; c2; c1]).
    { intros l H. rewrite H. change [c3; c2; c1] with (rev [c1; c2; c3]).
      apply Permutation_rev. }
    assert (N12 : c1 <> c2) by (intros ->; lia).
    assert (N23 : c2 <> c3) by (intros ->; lia).
    assert (N13 : c1 <> c3) by (intros ->; lia).
    split; intros Hs; rewrite <- Hf.
    + apply three_clips_in_order
        with (R := fun x y => (createdAt x >= createdAt y)%Z);
        try congruence; try lia.
      * apply HP'. rewrite <- Array_sort_perm. exact HP.
      * apply sort_newest; exact Hs.
    + apply three_clips_in_order
        with (R := fun x y => (createdAt x <= createdAt y)%Z);
        try congruence; try lia.
      * rewrite <- Array_sort_perm. exact HP.
      * apply sort_oldest; exact Hs.
Qed.

Lemma filter_filter {A} (p q : A -> bool) (l : list A) :
  filter q (filter p l) = filter (fun x => p x && q x) l.
Proof.
  induction l as [|x l IH]; simpl; [reflexivity|].
  destruct (p x); simpl; [destruct (q x); rewrite IH; reflexivity | exact IH].
Qed.

(** The two filters of the view keep exactly the clips that match the search
    text in the sense of C1 and have the selected category, when one is
    selected; the list shown is a rearrangement of those. *)
Lemma view_keeps_the_matching_clips (a : PastecaseApp.App) :
  toLowerCase [] = [] ->
  exists kept a',
    Selects (fun c => matchesBySpec toLowerCase (PastecaseApp.currentSearch a) c
                      /\ hasType (Some (PastecaseApp.currentFilter a)) c)
            (PastecaseApp.clips a) kept
    /\ PastecaseApp.renderClips toLowerCase a = Normal a'
    /\ Permutation (PastecaseApp.clips_container (PastecaseApp.dom a')) kept.
Proof.
  intros Hnil.
  destruct (renderClips_normal a) as [a' [Hr [Hf _]]].
  rewrite filteredClips_pure in Hf. injection Hf as Hf.
  set (p := fun c => negb (truthy (PastecaseApp.currentSearch a))
                     || matchesTextb toLowerCase
                          (PastecaseApp.currentSearch a) c).
  set (q := PastecaseDB.matchesType (Some (PastecaseApp.currentFilter a))).
  exists (filter (fun c => p c && q c) (PastecaseApp.clips a)), a'.
  split; [|split; [exact Hr|]].
  - apply Selects_filter. intros c _. unfold p, q.
    rewrite andb_true_iff, matchesTextb_spec, matchesType_spec by exact Hnil.
    reflexivity.
  - rewrite <- Hf, <- Array_sort_perm, <- filter_filter.
    assert (E1 : (if truthy (PastecaseApp.currentSearch a)
                  then filter (matchesTextb toLowerCase
                                 (PastecaseApp.currentSearch a))
                              (PastecaseApp.clips a)
                  else PastecaseApp.clips a)
                 = filter p (PastecaseApp.clips a)).
    { unfold p. destruct (truthy (PastecaseApp.currentSearch a)); simpl.
      - reflexivity.
      - symmetry. apply filter_true. reflexivity. }
    rewrite E1. cbv zeta.
    assert (E2 : forall l,
               (if truthy (PastecaseApp.currentFilter a)
                then filter (fun clip => str_eqb (type (data clip))
                                           (PastecaseApp.currentFilter a)) l
                else l)
               = filter q l).
    { intros l. unfold q, PastecaseDB.matchesType. simpl truthy_opt.
      destruct (truthy (PastecaseApp.currentFilter a)); simpl.
      - reflexivity.
      - symmetry. apply filter_true. reflexivity. }
    rewrite E2. reflexivity.
Qed.

End ViewProperties.

(** ** The object store *)

Lemma saveClip_ok (db : ObjectStore) (d : ClipData) (t1 t2 : Z) :
  PastecaseDB.saveClip db d t1 t2 None
  = (Normal (keyGenerator db),
     mkDB (records db ++ [mkClip (keyGenerator db) d t1 t2])
          (keyGenerator db + 1)
          (requests db ++ [AddRequest d t1 t2])).
Proof. reflexivity. Qed.

Lemma saveClip_fault (db : ObjectStore) (d : ClipData) (t1 t2 : Z)
  (e : JSError) :
  PastecaseDB.saveClip db d t1 t2 (Some e)
  = (Throw e, place (AddRequest d t1 t2) db).
Proof. reflexivity. Qed.

Lemma saveAll_records (items : list Saved) (db : ObjectStore) :
  records (saveAll db items) = records db ++ stamped (keyGenerator db) items
  /\ keyGenerator (saveAll db items)
     = (keyGenerator db + Z.of_nat (List.length items))%Z.
Proof.
  revert db. induction items as [|it items IH]; intros db.
  - simpl. rewrite app_nil_r. split; [reflexivity | lia].
  - specialize (IH (snd (PastecaseDB.saveClip db (fst (fst it))
                           (snd (fst it)) (snd it) None))).
    change (saveAll db (it :: items))
      with (saveAll (snd (PastecaseDB.saveClip db (fst (fst it))
                            (snd (fst it)) (snd it) None)) items).
    destruct IH as [H1 H2]. rewrite H1, H2. simpl.
    rewrite <- app_assoc. split; [reflexivity | lia].
Qed.

Lemma stamped_saved (items : list Saved) (key : Z) :
  map savedOf (stamped key items) = items.
Proof.
  revert key. induction items as [|[[d t1] t2] items IH]; intros key; simpl;
    [reflexivity|].
  rewrite IH. reflexivity.
Qed.

Lemma stamped_ids_above (items : list Saved) (key : Z) :
  Forall (fun k => (key <= k)%Z) (map id (stamped key items)).
Proof.
  revert key. induction items as [|it items IH]; intros key; simpl;
    constructor; [lia|].
  eapply Forall_impl; [|apply (IH (key + 1)%Z)]. simpl. intros; lia.
Qed.

Lemma stamped_ids_ascend (items : list Saved) (key : Z) :
  StronglySorted Z.lt (map id (stamped key items)).
Proof.
  revert key. induction items as [|it items IH]; intros key; simpl;
    constructor; [apply IH|].
  eapply Forall_impl; [|apply (stamped_ids_above items (key + 1)%Z)].
  simpl. intros; lia.
Qed.

Lemma ascending_NoDup (l : list Z) : StronglySorted Z.lt l -> NoDup l.
Proof.
  induction 1 as [|x l _ IH Hx]; constructor; [|exact IH].
  intros Hin. rewrite Forall_forall in Hx. specialize (Hx x Hin). lia.
Qed.

Lemma StronglySorted_snoc {A} (R : A -> A -> Prop) (l : list A) (y : A) :
  StronglySorted R l -> Forall (fun x => R x y) l ->
  StronglySorted R (l ++ [y]).
Proof.
  induction 1 as [|x l _ IH Hx]; intros Hy; simpl.
  - repeat constructor.
  - inversion Hy; subst. constructor; [apply IH; assumption|].
    apply Forall_app. split; [exact Hx | repeat constructor; assumption].
Qed.

Lemma StronglySorted_filter {A} (R : A -> A -> Prop) (p : A -> bool)
  (l : list A) :
  StronglySorted R l -> StronglySorted R (filter p l).
Proof.
  induction 1 as [|x l _ IH Hx]; simpl; [constructor|].
  destruct (p x); [|exact IH].
  constructor; [exact IH|].
  rewrite Forall_forall in Hx |- *. intros y Hy.
  apply filter_In in Hy as [Hy _]. auto.
Qed.

Lemma Forall_filter_keep {A} (P : A -> Prop) (p : A -> bool) (l : list A) :
  Forall P l -> Forall P (filter p l).
Proof.
  rewrite !Forall_forall. intros H x Hx.
  apply filter_In in Hx as [Hx _]. auto.
Qed.

Lemma store_wf_create : store_wf createObjectStore.
Proof. split; constructor. Qed.

Lemma store_wf_place (r : IDBRequest) (db : ObjectStore) :
  store_wf db -> store_wf (place r db).
Proof. intros H; exact H. Qed.

Lemma store_wf_save (db : ObjectStore) (d : ClipData) (t1 t2 : Z)
  (f : option JSError) :
  store_wf db -> store_wf (snd (PastecaseDB.saveClip db d t1 t2 f)).
Proof.
  intros [H1 H2]. destruct f as [e|]; [exact (conj H1 H2)|].
  rewrite saveClip_ok. split; simpl.
  - apply StronglySorted_snoc; [exact H1 | exact H2].
  - apply Forall_app. split.
    + eapply Forall_impl; [|exact H2]. simpl. intros; lia.
    + repeat constructor. simpl. lia.
Qed.

Lemma store_wf_delete (db : ObjectStore) (key : Z) (f : option JSError) :
  store_wf db -> store_wf (snd (PastecaseDB.deleteClip db key f)).
Proof.
  intros [H1 H2]. destruct f as [e|]; [exact (conj H1 H2)|].
  split; simpl.
  - apply StronglySorted_filter; exact H1.
  - apply Forall_filter_keep; exact H2.
Qed.

Lemma store_wf_getAll (db : ObjectStore) (f : option JSError) :
  store_wf db -> store_wf (snd (PastecaseDB.getAllClips db f)).
Proof. intros H. destruct f; exact H. Qed.

Lemma store_wf_run (calls : list Call) (db : ObjectStore) :
  store_wf db -> store_wf (snd (run db calls)).
Proof.
  revert db. induction calls as [|[d t1 t2 f | f | key f] calls IH];
    intros db H; simpl.
  - exact H.
  - pose proof (IH _ (store_wf_save d t1 t2 f H)) as IH'.
    destruct (PastecaseDB.saveClip db d t1 t2 f) as [r db1]. simpl in IH'.
    destruct (run db1 calls) as [ids db2]. exact IH'.
  - apply IH. apply store_wf_getAll; exact H.
  - apply IH. apply store_wf_delete; exact H.
Qed.

Lemma run_ids_ascend (calls : list Call) (db : ObjectStore) :
  Forall (fun k => (keyGenerator db <= k)%Z) (fst (run db calls))
  /\ StronglySorted Z.lt (fst (run db calls)).
Proof.
  revert db. induction calls as [|[d t1 t2 f | f | key f] calls IH];
    intros db; simpl.
  - split; constructor.
  - destruct f as [e|].
    + rewrite saveClip_fault.
      destruct (IH (place (AddRequest d t1 t2) db)) as [H1 H2].
      destruct (run (place (AddRequest d t1 t2) db) calls) as [ids db2].
      split; assumption.
    + rewrite saveClip_ok.
      match goal with |- context [run ?s calls] =>
        destruct (IH s) as [H1 H2]; destruct (run s calls) as [ids db2]
      end.
      simpl in *. split.
      * constructor; [lia|].
        eapply Forall_impl; [|exact H1]. simpl. intros; lia.
      * constructor; [exact H2|].
        eapply Forall_impl; [|exact H1]. simpl. intros; lia.
  - destruct f; exact (IH (place GetAllRequest db)).
  - destruct f as [e|].
    + exact (IH (place (DeleteRequest key) db)).
    + exact (IH (snd (PastecaseDB.deleteClip db key None))).
Qed.

(** C8. A save the engine accepts stores the object with the [createdAt] and
    [updatedAt] read from the clock at that moment and resolves to the key of
    the new record, which is the number the key generator stood at.  Over any
    history of saves (accepted or not), listings and deletions, the ids the
    saves resolve to are strictly increasing, hence pairwise distinct, and in
    every store reached from a new one the keys of the records ascend and lie
    below the generator. *)
Theorem save_stamps_and_returns_fresh_id :
  (forall db d t1 t2,
      exists db',
        PastecaseDB.saveClip db d t1 t2 None = (Normal (keyGenerator db), db')
        /\ records db' = records db ++ [mkClip (keyGenerator db) d t1 t2])
  /\ (forall db calls,
        StronglySorted Z.lt (fst (run db calls))
        /\ NoDup (fst (run db calls)))
  /\ (forall calls, store_wf (snd (run createObjectStore calls))).
Proof.
  split; [|split].
  - intros db d t1 t2. eexists. split; [apply saveClip_ok | reflexivity].
  - intros db calls. destruct (run_ids_ascend calls db) as [_ H].
    split; [exact H | apply ascending_NoDup; exact H].
  - intros calls. apply store_wf_run, store_wf_create.
Qed.

Section StoreClaims.

Variable toLowerCase : JSString -> JSString.

(** C5. A deletion the engine carries out resolves without error and leaves
    exactly the records whose id differs from the given one, so that the next
    listing has no record with that id; when no record has the id the records
    are unchanged.  Through the application, a confirmed deletion of an id
    that is not in the store ends with the success notification and the same
    records. *)
Theorem delete_removes_the_record (db : ObjectStore) (key : Z) :
  exists db',
    PastecaseDB.deleteClip db key None = (Normal tt, db')
    /\ Selects (fun c => id c <> key) (records db) (records db')
    /\ (exists listed,
          fst (PastecaseDB.getAllClips db' None) = Normal listed
          /\ Forall (fun c => id c <> key) listed)
    /\ (Forall (fun c => id c <> key) (records db) ->
        records db' = records db
        /\ forall a loadFault,
             PastecaseApp.db a = db ->
             let a' := PastecaseApp.deleteClip toLowerCase a key true None
                         loadFault in
             records (PastecaseApp.db a') = records db
             /\ (loadFault = None ->
                 PastecaseApp.toasts a'
                 = PastecaseApp.toasts a
                   ++ [PastecaseApp.mkToast (js "Clip deleted successfully")
                         PastecaseApp.success])).
Proof.
  eexists. split; [reflexivity|]. simpl.
  assert (S : Selects (fun c => id c <> key) (records db)
                (filter (fun c => negb (id c =? key)%Z) (records db))).
  { apply Selects_filter. intros c _.
    rewrite negb_true_iff, Z.eqb_neq. reflexivity. }
  split; [exact S|]. split.
  - eexists. split; [reflexivity|]. simpl.
    apply Forall_forall. intros c Hc. apply (Selects_In S) in Hc. tauto.
  - intros Habs.
    assert (E : filter (fun c => negb (id c =? key)%Z) (records db)
                = records db).
    { apply filter_true. rewrite Forall_forall in Habs. intros c Hc.
      rewrite negb_true_iff, Z.eqb_neq. auto. }
    split; [exact E|].
    intros a loadFault <-. unfold PastecaseApp.deleteClip. simpl.
    match goal with |- context [PastecaseApp.renderClips _ ?x] =>
      destruct (renderClips_normal toLowerCase x)
        as [a2 [Hr [_ [Hdb [Ht _]]]]]; rewrite Hr
    end.
    simpl. rewrite Hdb, Ht.
    destruct loadFault as [e|]; simpl; rewrite E; split;
      try reflexivity; intros; discriminate.
Qed.

(** C6. Saving [items] into a new store, reloading, and rendering with the
    constructor's settings (no search text, no category filter, newest
    first) shows the saved clips and nothing else: what is shown is a
    rearrangement of the reloaded records, which carry exactly the saved
    objects and timestamps, once each, under pairwise distinct ids. *)
Theorem round_trip_shows_every_saved_clip (items : list Saved) :
  let stored := saveAll createObjectStore items in
  let a := PastecaseApp.loadClips (PastecaseApp.constructor stored) None in
  exists a',
    PastecaseApp.renderClips toLowerCase a = Normal a'
    /\ PastecaseApp.clips a = records stored
    /\ map savedOf (records stored) = items
    /\ Permutation (PastecaseApp.clips_container (PastecaseApp.dom a'))
                   (records stored)
    /\ Permutation
         (map savedOf (PastecaseApp.clips_container (PastecaseApp.dom a')))
         items
    /\ List.length (PastecaseApp.clips_container (PastecaseApp.dom a'))
       = List.length items
    /\ NoDup (map id (PastecaseApp.clips_container (PastecaseApp.dom a'))).
Proof.
  intros stored a.
  destruct (renderClips_normal toLowerCase a) as [a' [Hr [Hf _]]].
  exists a'. split; [exact Hr|].
  rewrite filteredClips_pure in Hf. injection Hf as Hf.
  change (PastecaseApp.clips a) with (records stored) in *.
  simpl in Hf.
  destruct (saveAll_records items createObjectStore) as [Hrec _].
  fold stored in Hrec. simpl in Hrec.
  assert (HP : Permutation
                 (PastecaseApp.clips_container (PastecaseApp.dom a'))
                 (records stored)).
  { rewrite <- Hf. symmetry. apply Array_sort_perm. }
  assert (Hs : map savedOf (records stored) = items).
  { rewrite Hrec. apply stamped_saved. }
  split; [reflexivity|]. split; [exact Hs|]. split; [exact HP|].
  split; [|split].
  - apply Permutation_trans with (map savedOf (records stored)).
    + apply Permutation_map. exact HP.
    + rewrite Hs. reflexivity.
  - rewrite (Permutation_length HP).
    rewrite <- (length_map savedOf (records stored)), Hs. reflexivity.
  - apply Permutation_NoDup with (l := map id (records stored)).
    + apply Permutation_map. symmetry. exact HP.
    + rewrite Hrec. apply ascending_NoDup, stamped_ids_ascend.
Qed.

End StoreClaims.

(** ** Saving from the page *)

Section SaveProperties.

Variable toLowerCase : JSString -> JSString.

Lemma loadClips_db (a : PastecaseApp.App) (fault : option JSError) :
  PastecaseApp.db (PastecaseApp.loadClips a fault)
  = place GetAllRequest (PastecaseApp.db a).
Proof. destruct fault; reflexivity. Qed.

Lemma loadClips_readers (a : PastecaseApp.App) (fault : option JSError) :
  PastecaseApp.readers (PastecaseApp.loadClips a fault)
  = PastecaseApp.readers a.
Proof. destruct fault; reflexivity. Qed.

Lemma thenReload_db {X} (r : Completion X) (a : PastecaseApp.App)
  (fault : option JSError) (finish : PastecaseApp.App -> PastecaseApp.App)
  (catch : JSError -> PastecaseApp.App -> PastecaseApp.App) :
  (forall x, PastecaseApp.db (finish x) = PastecaseApp.db x) ->
  (forall e x, PastecaseApp.db (catch e x) = PastecaseApp.db x) ->
  PastecaseApp.db (PastecaseApp.thenReload toLowerCase r a fault finish catch)
  = match r with
    | Normal _ => place GetAllRequest (PastecaseApp.db a)
    | Throw _ => PastecaseApp.db a
    end.
Proof.
  intros Hf Hc. unfold PastecaseApp.thenReload.
  destruct r as [x|e]; [|apply Hc].
  destruct (renderClips_normal toLowerCase (PastecaseApp.loadClips a fault))
    as [a2 [Hr [_ [Hdb _]]]].
  rewrite Hr, Hf, Hdb. apply loadClips_db.
Qed.

Lemma onload_db (a : PastecaseApp.App) (r : Reader) (env : Engine) :
  PastecaseApp.db (PastecaseApp.onload toLowerCase a r env)
  = match saveFault env with
    | None =>
        place GetAllRequest
          (snd (PastecaseDB.saveClip (PastecaseApp.db a) (payload r)
                  (now1 env) (now2 env) None))
    | Some e =>
        place (AddRequest (payload r) (now1 env) (now2 env))
              (PastecaseApp.db a)
    end.
Proof.
  destruct r as [file tags memo | file | file]; unfold PastecaseApp.onload;
    destruct (saveFault env) as [e|];
    (rewrite saveClip_fault || rewrite saveClip_ok);
    cbv beta iota; rewrite thenReload_db; reflexivity.
Qed.

Lemma onload_records (a : PastecaseApp.App) (r : Reader) (env : Engine) :
  saveFault env = None ->
  records (PastecaseApp.db (PastecaseApp.onload toLowerCase a r env))
  = records (PastecaseApp.db a)
    ++ [mkClip (keyGenerator (PastecaseApp.db a)) (payload r)
               (now1 env) (now2 env)].
Proof. intros H. rewrite onload_db, H. reflexivity. Qed.

Lemma loadEvents_records (events : list (Reader * Engine))
  (a : PastecaseApp.App) :
  Forall (fun ev => saveFault (snd ev) = None) events ->
  map data (records (PastecaseApp.db
                       (PastecaseApp.loadEvents toLowerCase a events)))
  = map data (records (PastecaseApp.db a))
    ++ map (fun ev => payload (fst ev)) events.
Proof.
  revert a. induction events as [|[r env] events IH]; intros a H; simpl.
  - rewrite app_nil_r. reflexivity.
  - inversion H as [|? ? Hev Hrest]; subst. simpl in Hev.
    unfold PastecaseApp.loadEvents in *. simpl.
    rewrite IH by exact Hrest.
    rewrite onload_records by exact Hev.
    rewrite map_app, <- app_assoc. reflexivity.
Qed.

(** C3. When the text input is empty or holds only white space,
    [saveTextClip] does nothing but show the validation message: the store,
    its log of requests included, is as before.  When no file is selected,
    [saveImageClip] likewise only shows its message: the store is as before
    and no read is started from which a save could follow. *)
Theorem blank_input_is_rejected_before_the_store
  (a : PastecaseApp.App) (env : Engine) :
  (forallb isWhiteSpace (PastecaseApp.text_content (PastecaseApp.dom a))
   = true ->
   PastecaseApp.saveTextClip toLowerCase a env
   = PastecaseApp.showError (js "Please enter some text") a
   /\ PastecaseApp.db (PastecaseApp.saveTextClip toLowerCase a env)
      = PastecaseApp.db a)
  /\ (PastecaseApp.image_input (PastecaseApp.dom a) = None ->
      PastecaseApp.saveImageClip a
      = PastecaseApp.showError (js "Please select an image file") a
      /\ PastecaseApp.db (PastecaseApp.saveImageClip a) = PastecaseApp.db a
      /\ PastecaseApp.readers (PastecaseApp.saveImageClip a)
         = PastecaseApp.readers a).
Proof.
  split.
  - intros H. unfold PastecaseApp.saveTextClip.
    rewrite (trim_blank _ H). simpl. split; reflexivity.
  - intros H. unfold PastecaseApp.saveImageClip. rewrite H.
    repeat split.
Qed.

End SaveProperties.

(** ** Dropped files *)

Lemma endsWith_suffix (s p : JSString) :
  endsWith s p = true <-> exists stem, s = stem ++ p.
Proof.
  unfold endsWith. rewrite startsWith_prefix. split.
  - intros [rest H]. exists (rev rest).
    rewrite <- (rev_involutive s), H, rev_app_distr, rev_involutive.
    reflexivity.
  - intros [stem ->]. exists (rev stem). apply rev_app_distr.
Qed.

Lemma image_test (f : File.t) :
  startsWith (File.type f) (js "image/") = true <-> isImageFile f.
Proof. apply startsWith_prefix. Qed.

Lemma text_test (f : File.t) :
  startsWith (File.type f) (js "image/") = false ->
  (startsWith (File.type f) (js "text/")
   || str_eqb (File.type f) (js "application/json")
   || endsWith (File.name f) (js ".txt")
   || endsWith (File.name f) (js ".md") = true
   <-> isTextFile f).
Proof.
  intros Himg. unfold isTextFile.
  rewrite !orb_true_iff, startsWith_prefix, str_eqb_eq, !endsWith_suffix.
  split.
  - intros H. split; [|tauto].
    intros Hi. apply image_test in Hi. congruence.
  - intros [_ H]. tauto.
Qed.

Section DropProperties.

Variable toLowerCase : JSString -> JSString.

Lemma process_image (a : PastecaseApp.App) (f : File.t) :
  isImageFile f ->
  PastecaseApp.processDroppedFile a f
  = PastecaseApp.startReader (DroppedImageReader f) a.
Proof.
  intros H. apply image_test in H.
  unfold PastecaseApp.processDroppedFile. rewrite H. reflexivity.
Qed.

Lemma process_text (a : PastecaseApp.App) (f : File.t) :
  isTextFile f ->
  PastecaseApp.processDroppedFile a f
  = PastecaseApp.startReader (DroppedTextReader f) a.
Proof.
  intros H. unfold PastecaseApp.processDroppedFile.
  destruct (startsWith (File.type f) (js "image/")) eqn:Hi.
  - apply image_test in Hi. destruct H as [H _]. contradiction.
  - apply (text_test f Hi) in H. rewrite H. reflexivity.
Qed.

Lemma process_unsupported (a : PastecaseApp.App) (f : File.t) :
  isUnsupported f ->
  PastecaseApp.processDroppedFile a f
  = PastecaseApp.showError (PastecaseApp.message (unsupportedToast f)) a.
Proof.
  intros [H1 H2]. unfold PastecaseApp.processDroppedFile.
  destruct (startsWith (File.type f) (js "image/")) eqn:Hi.
  - apply image_test in Hi. contradiction.
  - destruct (startsWith (File.type f) (js "text/")
              || str_eqb (File.type f) (js "application/json")
              || endsWith (File.name f) (js ".txt")
              || endsWith (File.name f) (js ".md")) eqn:Ht.
    + apply (text_test f Hi) in Ht. contradiction.
    + reflexivity.
Qed.

Lemma file_class (f : File.t) :
  isImageFile f \/ isTextFile f \/ isUnsupported f.
Proof.
  destruct (startsWith (File.type f) (js "image/")) eqn:Hi.
  - left. apply image_test; exact Hi.
  - destruct (startsWith (File.type f) (js "text/")
              || str_eqb (File.type f) (js "application/json")
              || endsWith (File.name f) (js ".txt")
              || endsWith (File.name f) (js ".md")) eqn:Ht.
    + right; left. apply (text_test f Hi); exact Ht.
    + right; right. split.
      * intros H. apply image_test in H. congruence.
      * intros H. apply (text_test f Hi) in H. congruence.
Qed.

Lemma taggedFor_image (f : File.t) :
  isImageFile f -> taggedFor f (payload (DroppedImageReader f)).
Proof.
  intros Hi. split; [reflexivity|]. split.
  - intros _. repeat split.
  - intros [Hn _]. contradiction.
Qed.

Lemma taggedFor_text (f : File.t) :
  isTextFile f -> taggedFor f (payload (DroppedTextReader f)).
Proof.
  intros Ht. split; [reflexivity|]. split.
  - intros Hi. destruct Ht as [Hn _]. contradiction.
  - intros _. repeat split.
Qed.

Lemma handleDrop_classifies (files : list File.t) (a : PastecaseApp.App) :
  exists accepted rejected started,
    Selects (fun f => isImageFile f \/ isTextFile f) files accepted
    /\ Selects isUnsupported files rejected
    /\ Forall2 (fun f r => readerFor f r /\ taggedFor f (payload r))
               accepted started
    /\ PastecaseApp.readers (PastecaseApp.handleDrop a files)
       = PastecaseApp.readers a ++ started
    /\ PastecaseApp.toasts (PastecaseApp.handleDrop a files)
       = PastecaseApp.toasts a ++ map unsupportedToast rejected
    /\ PastecaseApp.db (PastecaseApp.handleDrop a files) = PastecaseApp.db a.
Proof.
  revert a. induction files as [|f files IH]; intros a.
  - exists [], [], []. simpl. rewrite !app_nil_r.
    repeat split; constructor.
  - destruct (IH (PastecaseApp.processDroppedFile a f))
      as [acc [rej [st [S1 [S2 [F [Hr [Ht Hd]]]]]]]].
    change (PastecaseApp.handleDrop a (f :: files))
      with (PastecaseApp.handleDrop (PastecaseApp.processDroppedFile a f)
              files).
    rewrite Hr, Ht, Hd. clear Hr Ht Hd IH.
    destruct (file_class f) as [Hi | [Htx | Hu]].
    + exists (f :: acc), rej, (DroppedImageReader f :: st).
      rewrite (process_image a Hi). simpl. rewrite <- app_assoc.
      repeat split; auto.
      * apply Selects_keep; auto.
      * apply Selects_drop; [intros [Hn _]; contradiction | exact S2].
      * constructor; [|exact F].
        split; [left; auto | apply taggedFor_image; exact Hi].
    + exists (f :: acc), rej, (DroppedTextReader f :: st).
      rewrite (process_text a Htx). simpl. rewrite <- app_assoc.
      repeat split; auto.
      * apply Selects_keep; auto.
      * apply Selects_drop; [intros [_ Hn]; contradiction | exact S2].
      * constructor; [|exact F].
        split; [right; auto | apply taggedFor_text; exact Htx].
    + exists acc, (f :: rej), st.
      rewrite (process_unsupported a Hu). simpl. rewrite <- app_assoc.
      repeat split; auto.
      * apply Selects_drop; [|exact S1].
        destruct Hu as [H1 H2]. tauto.
      * apply Selects_keep; auto.
Qed.

(** C7. Of the files of one drop, those that are images by MIME type or text
    files by MIME type or extension each get a read started, in their order,
    whose handler saves a clip of the matching type with the matching tags;
    each of the others gets the error notification and no read.  Handling
    the drop itself places no request on the store, and once the reads have
    finished, in whatever order, with the engine accepting the saves, the
    objects added to the store are those of the accepted files and no other:
    a file that is turned down neither saves anything nor keeps the files
    around it from being processed. *)
Theorem dropped_files_are_classified_one_by_one
  (a : PastecaseApp.App) (files : list File.t) :
  exists accepted rejected started,
    Selects (fun f => isImageFile f \/ isTextFile f) files accepted
    /\ Selects isUnsupported files rejected
    /\ Forall2 (fun f r => readerFor f r /\ taggedFor f (payload r))
               accepted started
    /\ PastecaseApp.readers (PastecaseApp.handleDrop a files)
       = PastecaseApp.readers a ++ started
    /\ PastecaseApp.toasts (PastecaseApp.handleDrop a files)
       = PastecaseApp.toasts a ++ map unsupportedToast rejected
    /\ PastecaseApp.db (PastecaseApp.handleDrop a files) = PastecaseApp.db a
    /\ forall events,
         Permutation (map fst events) started ->
         Forall (fun ev => saveFault (snd ev) = None) events ->
         Permutation
           (map data
              (records
                 (PastecaseApp.db
                    (PastecaseApp.loadEvents toLowerCase
                       (PastecaseApp.handleDrop a files) events))))
           (map data (records (PastecaseApp.db a)) ++ map payload started).
Proof.
  destruct (handleDrop_classifies files a)
    as [acc [rej [st [S1 [S2 [F [Hr [Ht Hd]]]]]]]].
  exists acc, rej, st. repeat (split; [assumption|]).
  intros events HP Hok.
  rewrite loadEvents_records by exact Hok. rewrite Hd.
  apply Permutation_app_head.
  rewrite <- (map_map fst payload). apply Permutation_map. exact HP.
Qed.

End DropProperties.

(** ** The content of what is saved *)

Section ContentProperties.

Variable toLowerCase : JSString -> JSString.

Lemma truthy_nonempty (s : JSString) : truthy s = true <-> s <> [].
Proof. destruct s; simpl; split; congruence. Qed.

(** The text modal only ever adds an object whose content is not empty. *)
Lemma text_modal_stores_content (a : PastecaseApp.App) (env : Engine) :
  exists rest,
    requests (PastecaseApp.db (PastecaseApp.saveTextClip toLowerCase a env))
    = requests (PastecaseApp.db a) ++ rest
    /\ Forall (fun d => content d <> []) (addedObjects rest).
Proof.
  unfold PastecaseApp.saveTextClip.
  destruct (truthy (trim (PastecaseApp.text_content (PastecaseApp.dom a))))
    eqn:Hc; simpl negb; cbv iota.
  - apply truthy_nonempty in Hc.
    destruct (saveFault env) as [e|];
      (rewrite saveClip_fault || rewrite saveClip_ok);
      cbv beta iota; rewrite thenReload_db by reflexivity; simpl.
    + eexists. split; [reflexivity|]. repeat constructor. exact Hc.
    + eexists. split; [rewrite <- app_assoc; reflexivity|].
      repeat constructor. exact Hc.
  - exists []. rewrite app_nil_r. split; [reflexivity | constructor].
Qed.

(** A handler adds the object of its reader and nothing else. *)
Lemma onload_adds_payload (a : PastecaseApp.App) (r : Reader) (env : Engine) :
  exists rest,
    requests (PastecaseApp.db (PastecaseApp.onload toLowerCase a r env))
    = requests (PastecaseApp.db a) ++ rest
    /\ addedObjects rest = [payload r].
Proof.
  rewrite onload_db. destruct (saveFault env) as [e|]; simpl.
  - eexists. split; reflexivity.
  - eexists. split; [rewrite <- app_assoc; reflexivity | reflexivity].
Qed.

(** An image is saved as a data URL, which is never empty; a dropped text
    file is saved as its text, whatever it is. *)
Lemma payload_content (file : File.t) (tags : list JSString)
  (memo : JSString) :
  content (payload (ModalImageReader file tags memo)) <> []
  /\ content (payload (DroppedImageReader file)) <> []
  /\ content (payload (DroppedTextReader file)) = File.text file.
Proof. repeat split; discriminate. Qed.

(** C4, at a dropped text file that is empty.  The drop starts a read for
    the file; when the read has finished, the handler has added an object
    whose content is the empty string, the store holds one record with that
    content, and the success notification is shown. *)
Theorem dropped_empty_text_file_is_stored_without_content :
  let a1 := PastecaseApp.handleDrop
              (PastecaseApp.constructor createObjectStore) [emptyTextFile] in
  let a2 := PastecaseApp.loadEvents toLowerCase a1
              [(DroppedTextReader emptyTextFile, mkEngine 0 0 None None)] in
  PastecaseApp.readers a1 = [DroppedTextReader emptyTextFile]
  /\ map content (addedObjects (requests (PastecaseApp.db a2))) = [[]]
  /\ map (fun c => (id c, type (data c), content (data c)))
         (records (PastecaseApp.db a2))
     = [(1%Z, js "text", [])]
  /\ map PastecaseApp.toastType (PastecaseApp.toasts a2)
     = [PastecaseApp.success].
Proof. repeat split. Qed.

End ContentProperties.

(** * Instances *)

Example search_ell_finds_hello_world :
  fst (PastecaseDB.searchClips asciiToLowerCase sampleStore
         (Some (js "ELL")) None None)
  = Normal [helloClip].
Proof. reflexivity. Qed.

Example search_by_tag_only :
  fst (PastecaseDB.searchClips asciiToLowerCase sampleStore
         (Some (js "holi")) (Some (js "image")) None)
  = Normal [photoClip]
  /\ includes (asciiToLowerCase (content (data photoClip)))
              (asciiToLowerCase (js "holi")) = false.
Proof. split; reflexivity. Qed.

Example tags_are_split_and_trimmed :
  parseTags (js "a, b") = [js "a"; js "b"]
  /\ parseTags (js " , x ,,") = [js "x"]
  /\ parseTags [] = [].
Proof. repeat split. Qed.

Example saved_text_clip_is_listed :
  let page := PastecaseApp.mkDom (js "hello") (js "a, b") [] false
                None [] [] true true [] false in
  let a := PastecaseApp.set_dom page
             (PastecaseApp.constructor createObjectStore) in
  let a' := PastecaseApp.saveTextClip asciiToLowerCase a
              (mkEngine 5000 5000 None None) in
  map (fun c => (type (data c), content (data c), tags (data c)))
      (PastecaseApp.clips a')
  = [(js "text", js "hello", [js "a"; js "b"])].
Proof. reflexivity. Qed.

Example category_filter_keeps_sort_order :
  let a := PastecaseApp.mkApp sampleStore [helloClip; photoClip; noteClip]
             (js "oldest") (js "text") []
             (PastecaseApp.dom (PastecaseApp.constructor sampleStore))
             [] [] [] in
  PastecaseApp.filteredClips asciiToLowerCase a
  = Normal [helloClip; noteClip].
Proof. reflexivity. Qed.

Lemma search_returns_the_matching_clips_witness :
  asciiToLowerCase [] = []
  /\ exists r,
       fst (PastecaseDB.searchClips asciiToLowerCase sampleStore
              (Some (js "o")) (Some (js "text")) None)
       = Normal r
       /\ Selects (fun c => hasType (Some (js "text")) c
                            /\ matchesBySpec asciiToLowerCase (js "o") c)
                  (records sampleStore) r
       /\ (forall c, In c r <->
                     In c (records sampleStore)
                     /\ hasType (Some (js "text")) c
                     /\ matchesBySpec asciiToLowerCase (js "o") c)
       /\ (forall c tag,
             In c (records sampleStore) -> hasType (Some (js "text")) c ->
             In tag (tags (data c)) ->
             substring_ci asciiToLowerCase (js "o") tag ->
             In c r).
Proof.
  split; [reflexivity|].
  exact (search_returns_the_matching_clips asciiToLowerCase eq_refl
           sampleStore (js "o") (Some (js "text"))).
Defined.

Lemma search_predicate_total_without_memo_witness :
  (memo (data photoClip) = None \/ memo (data photoClip) = Some [])
  /\ (forall query, exists b,
         PastecaseDB.matchesQuery asciiToLowerCase query photoClip = Normal b)
  /\ (forall search, exists b,
         PastecaseDB.matchesText asciiToLowerCase (Some search) photoClip
         = Normal b)
  /\ (forall query, query <> [] ->
         (PastecaseDB.matchesQuery asciiToLowerCase (Some query) photoClip
          = Normal true
          <-> substring_ci asciiToLowerCase query (content (data photoClip))
              \/ exists tag, In tag (tags (data photoClip))
                             /\ substring_ci asciiToLowerCase query tag)).
Proof.
  split; [left; reflexivity|].
  exact (search_predicate_total_without_memo asciiToLowerCase photoClip
           (or_introl eq_refl)).
Defined.

Lemma view_is_sorted_by_createdAt_witness :
  let a := PastecaseApp.set_clips [photoClip; helloClip; noteClip]
             (PastecaseApp.constructor sampleStore) in
  (createdAt helloClip < createdAt photoClip < createdAt noteClip)%Z
  /\ Permutation (PastecaseApp.clips a) [helloClip; photoClip; noteClip]
  /\ exists a',
       PastecaseApp.renderClips asciiToLowerCase a = Normal a'
       /\ newestFirst (PastecaseApp.clips_container (PastecaseApp.dom a'))
       /\ PastecaseApp.clips_container (PastecaseApp.dom a')
          = [noteClip; photoClip; helloClip].
Proof.
  intros a.
  assert (Ht : (createdAt helloClip < createdAt photoClip
                < createdAt noteClip)%Z) by (simpl; lia).
  assert (HP : Permutation (PastecaseApp.clips a)
                 [helloClip; photoClip; noteClip]) by apply perm_swap.
  split; [exact Ht|]. split; [exact HP|].
  destruct (view_is_sorted_by_createdAt asciiToLowerCase a)
    as [a' [Hr [Hnew [_ H3]]]].
  exists a'. split; [exact Hr|]. split.
  - apply Hnew. reflexivity.
  - apply (H3 helloClip photoClip noteClip Ht HP eq_refl eq_refl).
    reflexivity.
Defined.

Lemma blank_input_is_rejected_before_the_store_witness :
  let page := PastecaseApp.mkDom [32; 9; 10; 160]%N (js "a, b") (js "memo")
                false None (js "x") [] false true [] false in
  let a := PastecaseApp.set_dom page (PastecaseApp.constructor sampleStore) in
  let env := mkEngine 5000 5001 None None in
  forallb isWhiteSpace (PastecaseApp.text_content (PastecaseApp.dom a)) = true
  /\ PastecaseApp.image_input (PastecaseApp.dom a) = None
  /\ PastecaseApp.db (PastecaseApp.saveTextClip asciiToLowerCase a env)
     = sampleStore
  /\ PastecaseApp.db (PastecaseApp.saveImageClip a) = sampleStore
  /\ PastecaseApp.readers (PastecaseApp.saveImageClip a) = [].
Proof.
  intros page a env.
  destruct (blank_input_is_rejected_before_the_store asciiToLowerCase a env)
    as [Htext Himage].
  assert (Hb : forallb isWhiteSpace
                 (PastecaseApp.text_content (PastecaseApp.dom a)) = true)
    by reflexivity.
  assert (Hn : PastecaseApp.image_input (PastecaseApp.dom a) = None)
    by reflexivity.
  split; [exact Hb|]. split; [exact Hn|].
  destruct (Htext Hb) as [_ H1]. destruct (Himage Hn) as [_ [H2 H3]].
  split; [exact H1|]. split; [exact H2 | exact H3].
Defined.

Lemma delete_removes_the_record_witness :
  Forall (fun c => id c <> 7%Z) (records sampleStore)
  /\ exists db',
       PastecaseDB.deleteClip sampleStore 7 None = (Normal tt, db')
       /\ records db' = records sampleStore
       /\ PastecaseApp.toasts
            (PastecaseApp.deleteClip asciiToLowerCase
               (PastecaseApp.constructor sampleStore) 7 true None None)
          = [PastecaseApp.mkToast (js "Clip deleted successfully")
               PastecaseApp.success].
Proof.
  assert (Habs : Forall (fun c => id c <> 7%Z) (records sampleStore))
    by (repeat constructor; discriminate).
  split; [exact Habs|].
  destruct (delete_removes_the_record asciiToLowerCase sampleStore 7)
    as [db' [Hd [_ [_ H]]]].
  exists db'. split; [exact Hd|].
  destruct (H Habs) as [Hrec Happ]. split; [exact Hrec|].
  destruct (Happ (PastecaseApp.constructor sampleStore) None eq_refl)
    as [_ Ht].
  exact (Ht eq_refl).
Defined.

Lemma dropped_files_are_classified_one_by_one_witness :
  let a := PastecaseApp.constructor createObjectStore in
  let files := [pngFile; zipFile; notesFile] in
  let events := [(DroppedTextReader notesFile, mkEngine 10 10 None None);
                 (DroppedImageReader pngFile, mkEngine 20 21 None None)] in
  Permutation (map fst events)
              [DroppedImageReader pngFile; DroppedTextReader notesFile]
  /\ Forall (fun ev => saveFault (snd ev) = None) events
  /\ PastecaseApp.toasts (PastecaseApp.handleDrop a files)
     = [unsupportedToast zipFile]
  /\ Permutation
       (map data
          (records
             (PastecaseApp.db
                (PastecaseApp.loadEvents asciiToLowerCase
                   (PastecaseApp.handleDrop a files) events))))
       [PastecaseApp.droppedImage pngFile; PastecaseApp.droppedText notesFile].
Proof.
  intros a files events.
  assert (HP : Permutation (map fst events)
                 [DroppedImageReader pngFile; DroppedTextReader notesFile])
    by apply perm_swap.
  assert (Hok : Forall (fun ev => saveFault (snd ev) = None) events)
    by (repeat constructor).
  split; [exact HP|]. split; [exact Hok|]. split; [reflexivity|].
  destruct (dropped_files_are_classified_one_by_one asciiToLowerCase a files)
    as [acc [rej [st [_ [_ [_ [Hr [_ [_ H]]]]]]]]].
  assert (Hst : [DroppedImageReader pngFile; DroppedTextReader notesFile] = st)
    by exact Hr.
  subst st. exact (H events HP Hok).
Defined.

(** * Further properties *)

(** ** Tags and trimmed text *)

Lemma trimStart_head (s : JSString) :
  match trimStart s with
  | [] => True
  | c :: _ => isWhiteSpace c = false
  end.
Proof.
  induction s as [|c s IH]; simpl; [exact I|].
  destruct (isWhiteSpace c) eqn:E; [exact IH | exact E].
Qed.

Lemma trimStart_suffix (s : JSString) :
  exists w, s = w ++ trimStart s.
Proof.
  induction s as [|c s [w IH]]; simpl.
  - exists []. reflexivity.
  - destruct (isWhiteSpace c).
    + exists (c :: w). simpl. f_equal. exact IH.
    + exists []. reflexivity.
Qed.

Lemma trimStart_fixed (s : JSString) :
  match s with [] => True | c :: _ => isWhiteSpace c = false end ->
  trimStart s = s.
Proof. destruct s as [|c s]; simpl; [reflexivity|]. intros ->. reflexivity. Qed.

Lemma last_rev_head {A} (l : list A) (x d : A) : last (rev l ++ [x]) d = x.
Proof. apply last_last. Qed.

Lemma trim_trimmed (s : JSString) : trimmed (trim s).
Proof.
  unfold trim.
  pose proof (trimStart_head s) as Hu.
  destruct (trimStart_suffix (rev (trimStart s))) as [w Hw].
  pose proof (trimStart_head (rev (trimStart s))) as Hv.
  destruct (trimStart (rev (trimStart s))) as [|c v]; [exact I|].
  assert (E : trimStart s = rev v ++ [c] ++ rev w).
  { rewrite <- (rev_involutive (trimStart s)), Hw, rev_app_distr. simpl.
    rewrite <- app_assoc. reflexivity. }
  simpl rev. unfold trimmed.
  destruct (rev v ++ [c]) as [|h t] eqn:Eh.
  - destruct (rev v); discriminate.
  - split.
    + rewrite E in Hu. change (rev v ++ [c] ++ rev w)
        with (rev v ++ ([c] ++ rev w)) in Hu.
      rewrite app_assoc, Eh in Hu. exact Hu.
    + rewrite <- Eh, last_last. exact Hv.
Qed.

Lemma rev_head_last (s : JSString) (c : N) :
  match rev (c :: s) with
  | [] => False
  | h :: _ => h = last (c :: s) c
  end.
Proof.
  destruct (rev (c :: s)) as [|h t] eqn:E.
  - simpl in E. destruct (rev s); discriminate.
  - assert (E' : c :: s = rev t ++ [h])
      by (rewrite <- (rev_involutive (c :: s)), E; reflexivity).
    rewrite E', last_last. reflexivity.
Qed.

Lemma trim_fixed (s : JSString) : trimmed s -> trim s = s.
Proof.
  destruct s as [|c s]; [reflexivity|]. intros [H1 H2].
  unfold trim. rewrite (trimStart_fixed (c :: s)) by exact H1.
  rewrite trimStart_fixed; [apply rev_involutive|].
  pose proof (rev_head_last s c) as H.
  destruct (rev (c :: s)) as [|h t]; [exact I|]. rewrite H. exact H2.
Qed.

Lemma trimStart_incl (s : JSString) (c : N) : In c (trimStart s) -> In c s.
Proof.
  destruct (trimStart_suffix s) as [w E]. intros H. rewrite E.
  apply in_or_app. right. exact H.
Qed.

Lemma trim_incl (s : JSString) (c : N) : In c (trim s) -> In c s.
Proof.
  unfold trim. intros H. apply in_rev in H.
  apply trimStart_incl in H. apply in_rev in H.
  apply trimStart_incl in H. exact H.
Qed.

Lemma split_comma_pieces (s : JSString) :
  Forall (fun p => ~ In 44%N p) (split_comma s).
Proof.
  induction s as [|c s IH]; simpl.
  - constructor; [intros [] | constructor].
  - destruct (N.eqb_spec c 44) as [->|Hc].
    + constructor; [intros [] | exact IH].
    + destruct (split_comma s) as [|p rest].
      * constructor; [|constructor]. intros [H|[]]. congruence.
      * inversion IH; subst. constructor; [|assumption].
        intros [H|H]; [congruence | contradiction].
Qed.

Lemma split_comma_single (p : JSString) :
  ~ In 44%N p -> split_comma p = [p].
Proof.
  induction p as [|c p IH]; intros H; simpl; [reflexivity|].
  destruct (N.eqb_spec c 44) as [->|Hc]; [exfalso; apply H; left; reflexivity|].
  rewrite IH by (intros H'; apply H; right; exact H'). reflexivity.
Qed.

Lemma split_comma_cons (p rest : JSString) :
  ~ In 44%N p -> split_comma (p ++ 44%N :: rest) = p :: split_comma rest.
Proof.
  induction p as [|c p IH]; intros H; simpl; [reflexivity|].
  destruct (N.eqb_spec c 44) as [->|Hc]; [exfalso; apply H; left; reflexivity|].
  rewrite IH by (intros H'; apply H; right; exact H'). reflexivity.
Qed.

Lemma split_join_comma (pieces : list JSString) :
  pieces <> [] -> Forall (fun p => ~ In 44%N p) pieces ->
  split_comma (join_comma pieces) = pieces.
Proof.
  induction pieces as [|p [|q rest] IH]; intros Hne H.
  - congruence.
  - inversion H; subst. apply split_comma_single; assumption.
  - inversion H; subst.
    change (join_comma (p :: q :: rest))
      with (p ++ 44%N :: join_comma (q :: rest)).
    rewrite split_comma_cons by assumption.
    rewrite IH by (assumption || discriminate). reflexivity.
Qed.

Lemma parseTags_clean (value : JSString) :
  Forall cleanTag (parseTags value).
Proof.
  unfold parseTags. apply Forall_forall. intros t Ht.
  apply filter_In in Ht as [Ht Hne].
  apply in_map_iff in Ht as [p [<- Hp]].
  split; [|split].
  - destruct (trim p); [discriminate | congruence].
  - apply trim_trimmed.
  - intros Hc. apply trim_incl in Hc.
    pose proof (split_comma_pieces value) as H.
    rewrite Forall_forall in H. exact (H p Hp Hc).
Qed.

(** X1. The tags read from a tag input are clean: none is empty, none has
    white space at either end, none contains a comma. *)
Theorem parseTags_gives_clean_tags (value : JSString) :
  Forall cleanTag (parseTags value).
Proof. apply parseTags_clean. Qed.

(** X2. Clean tags written out with commas between them are read back as
    they are, in their order; in particular reading is the identity on what
    reading produces. *)
Theorem parseTags_reads_back_clean_tags (tags : list JSString) :
  Forall cleanTag tags ->
  parseTags (join_comma tags) = tags
  /\ parseTags (join_comma (parseTags (join_comma tags))) = tags.
Proof.
  intros H.
  assert (E : parseTags (join_comma tags) = tags).
  { destruct tags as [|t tags]; [reflexivity|].
    unfold parseTags. rewrite split_join_comma.
    - assert (Hm : map trim (t :: tags) = t :: tags).
      { rewrite <- (map_id (t :: tags)) at 2. apply map_ext_in.
        intros x Hx. rewrite Forall_forall in H.
        apply trim_fixed. apply (H x Hx). }
      rewrite Hm. apply filter_true. intros x Hx.
      rewrite Forall_forall in H. destruct (H x Hx) as [Hne _].
      destruct x; [congruence | reflexivity].
    - discriminate.
    - eapply Forall_impl; [|exact H]. intros x [_ [_ Hx]]. exact Hx. }
  split; [exact E | rewrite E; exact E].
Qed.

Lemma parseTags_reads_back_clean_tags_witness :
  Forall cleanTag [js "work"; js "to do"; js "2024"]
  /\ parseTags (js "work,to do,2024") = [js "work"; js "to do"; js "2024"].
Proof.
  assert (H : Forall cleanTag [js "work"; js "to do"; js "2024"]).
  { repeat constructor; try discriminate;
      simpl; intuition discriminate. }
  split; [exact H|].
  exact (proj1 (parseTags_reads_back_clean_tags H)).
Defined.

(** ** The view in closed form *)

Section ViewClosedFormProperties.

Variable toLowerCase : JSString -> JSString.

Lemma filteredClips_viewOf (a : PastecaseApp.App) :
  PastecaseApp.filteredClips toLowerCase a = Normal (viewOf toLowerCase a).
Proof.
  rewrite filteredClips_pure. unfold viewOf. f_equal. f_equal.
  rewrite <- filter_filter. cbv zeta.
  assert (E1 : (if truthy (PastecaseApp.currentSearch a)
                then filter (matchesTextb toLowerCase
                               (PastecaseApp.currentSearch a))
                            (PastecaseApp.clips a)
                else PastecaseApp.clips a)
               = filter (fun c => negb (truthy (PastecaseApp.currentSearch a))
                                  || matchesTextb toLowerCase
                                       (PastecaseApp.currentSearch a) c)
                        (PastecaseApp.clips a)).
  { destruct (truthy (PastecaseApp.currentSearch a)); simpl.
    - reflexivity.
    - symmetry. apply filter_true. reflexivity. }
  rewrite E1.
  unfold PastecaseDB.matchesType. simpl truthy_opt.
  destruct (truthy (PastecaseApp.currentFilter a)); simpl.
  - reflexivity.
  - symmetry. apply filter_true. reflexivity.
Qed.

Lemma renderClips_rendered (a : PastecaseApp.App) :
  PastecaseApp.renderClips toLowerCase a = Normal (rendered toLowerCase a).
Proof.
  unfold PastecaseApp.renderClips. rewrite filteredClips_viewOf. simpl.
  unfold rendered.
  destruct (truthy (PastecaseApp.currentSearch a)
            || truthy (PastecaseApp.currentFilter a)); reflexivity.
Qed.

Lemma viewOf_unfiltered (a : PastecaseApp.App) :
  truthy (PastecaseApp.currentSearch a)
  || truthy (PastecaseApp.currentFilter a) = false ->
  viewOf toLowerCase a
  = Array_sort (PastecaseApp.compareClips (PastecaseApp.currentSort a))
               (PastecaseApp.clips a).
Proof.
  intros H. apply orb_false_iff in H as [H1 H2].
  unfold viewOf, PastecaseDB.matchesType. simpl truthy_opt.
  rewrite H1, H2. simpl. rewrite filter_true by reflexivity. reflexivity.
Qed.

Lemma viewOf_sublist (a : PastecaseApp.App) (c : Clip) :
  In c (viewOf toLowerCase a) -> In c (PastecaseApp.clips a).
Proof.
  unfold viewOf. intros H.
  apply (Permutation_in _ (Permutation_sym (Array_sort_perm _ _))) in H.
  apply filter_In in H as [H _]. exact H.
Qed.

Lemma rendered_clips_perm (a : PastecaseApp.App) :
  Permutation (PastecaseApp.clips (rendered toLowerCase a))
              (PastecaseApp.clips a).
Proof.
  unfold rendered. simpl.
  destruct (truthy (PastecaseApp.currentSearch a)
            || truthy (PastecaseApp.currentFilter a)) eqn:E; [reflexivity|].
  rewrite viewOf_unfiltered by exact E. symmetry. apply Array_sort_perm.
Qed.

End ViewClosedFormProperties.

(** ** The text modal *)

Section TextModalProperties.

Variable toLowerCase : JSString -> JSString.

Lemma not_blank_truthy (s : JSString) :
  forallb isWhiteSpace s = false -> truthy (trim s) = true.
Proof.
  intros H. destruct (trim s) eqn:E; [|reflexivity].
  apply trim_nil_iff in E. congruence.
Qed.

(** The object the text modal saves for the inputs of a page. *)
Lemma saveTextClip_unfold (a : PastecaseApp.App) (env : Engine) :
  forallb isWhiteSpace (PastecaseApp.text_content (PastecaseApp.dom a))
  = false ->
  PastecaseApp.saveTextClip toLowerCase a env
  = let (r, db1) :=
      PastecaseDB.saveClip (PastecaseApp.db a)
        (mkClipData (js "text")
           (trim (PastecaseApp.text_content (PastecaseApp.dom a)))
           (parseTags (PastecaseApp.text_tags (PastecaseApp.dom a)))
           (Some (trim (PastecaseApp.text_memo (PastecaseApp.dom a))))
           None None (Some (js "text/plain")))
        (now1 env) (now2 env) (saveFault env) in
    PastecaseApp.thenReload toLowerCase r (PastecaseApp.set_db db1 a)
      (loadFault env)
      (fun x => PastecaseApp.showSuccess (js "Text clip saved successfully")
                  (PastecaseApp.hideTextModal x))
      (fun e x => PastecaseApp.showError (js "Failed to save clip")
                    (PastecaseApp.console_error (js "Save error:") e x)).
Proof.
  intros H. unfold PastecaseApp.saveTextClip.
  rewrite (not_blank_truthy _ H). reflexivity.
Qed.

(** X3. Whatever the inputs and the engine do, the text modal places at most
    one add request, and the object of that request is a text clip of MIME
    type [text/plain] whose content is not empty and has no white space at
    either end, whose memo has none either, and whose tags are clean. *)
Theorem text_modal_saves_normalised_clips
  (a : PastecaseApp.App) (env : Engine) :
  exists rest,
    requests (PastecaseApp.db (PastecaseApp.saveTextClip toLowerCase a env))
    = requests (PastecaseApp.db a) ++ rest
    /\ (List.length (addedObjects rest) <= 1)%nat
    /\ Forall (fun d =>
                 type d = js "text"
                 /\ mimeType d = Some (js "text/plain")
                 /\ content d <> [] /\ trimmed (content d)
                 /\ (exists m, memo d = Some m /\ trimmed m)
                 /\ Forall cleanTag (tags d))
              (addedObjects rest).
Proof.
  destruct (forallb isWhiteSpace
              (PastecaseApp.text_content (PastecaseApp.dom a))) eqn:Hb.
  - exists []. rewrite app_nil_r.
    unfold PastecaseApp.saveTextClip. rewrite (trim_blank _ Hb). simpl.
    repeat split; auto.
  - rewrite (saveTextClip_unfold a env Hb).
    assert (Hd : forall d,
               d = mkClipData (js "text")
                     (trim (PastecaseApp.text_content (PastecaseApp.dom a)))
                     (parseTags (PastecaseApp.text_tags (PastecaseApp.dom a)))
                     (Some (trim (PastecaseApp.text_memo
                                    (PastecaseApp.dom a))))
                     None None (Some (js "text/plain")) ->
               type d = js "text"
               /\ mimeType d = Some (js "text/plain")
               /\ content d <> [] /\ trimmed (content d)
               /\ (exists m, memo d = Some m /\ trimmed m)
               /\ Forall cleanTag (tags d)).
    { intros d ->. simpl. repeat split.
      - apply truthy_nonempty, not_blank_truthy, Hb.
      - apply trim_trimmed.
      - eexists. split; [reflexivity | apply trim_trimmed].
      - apply parseTags_clean. }
    destruct (saveFault env) as [e|];
      (rewrite saveClip_fault || rewrite saveClip_ok);
      cbv beta iota; rewrite thenReload_db by reflexivity;
      unfold PastecaseApp.set_db, PastecaseApp.db, place, requests.
    + eexists. split; [reflexivity|].
      split; [simpl; lia|]. constructor; [|constructor].
      apply Hd. reflexivity.
    + eexists. split; [rewrite <- app_assoc; reflexivity|].
      split; [simpl; lia|]. constructor; [|constructor].
      apply Hd. reflexivity.
Qed.

(** X4. When the content is not blank and the engine accepts the save and
    the reload, the store gains one record, with the next key, holding the
    trimmed content, the parsed tags, the trimmed memo and the two clock
    readings; the list in memory is the reloaded one and the list shown is
    the view of it; the inputs of the modal are emptied and the modal hidden;
    and the one notification added is the success message. *)
Theorem text_modal_save_succeeds (a : PastecaseApp.App) (env : Engine) :
  forallb isWhiteSpace (PastecaseApp.text_content (PastecaseApp.dom a))
  = false ->
  saveFault env = None -> loadFault env = None ->
  let a' := PastecaseApp.saveTextClip toLowerCase a env in
  records (PastecaseApp.db a')
  = records (PastecaseApp.db a)
    ++ [mkClip (keyGenerator (PastecaseApp.db a))
          (mkClipData (js "text")
             (trim (PastecaseApp.text_content (PastecaseApp.dom a)))
             (parseTags (PastecaseApp.text_tags (PastecaseApp.dom a)))
             (Some (trim (PastecaseApp.text_memo (PastecaseApp.dom a))))
             None None (Some (js "text/plain")))
          (now1 env) (now2 env)]
  /\ Permutation (PastecaseApp.clips a') (records (PastecaseApp.db a'))
  /\ shown a'
     = viewOf toLowerCase
         (PastecaseApp.set_clips (records (PastecaseApp.db a')) a)
  /\ PastecaseApp.text_content (PastecaseApp.dom a') = []
  /\ PastecaseApp.text_tags (PastecaseApp.dom a') = []
  /\ PastecaseApp.text_memo (PastecaseApp.dom a') = []
  /\ PastecaseApp.text_modal_hidden (PastecaseApp.dom a') = true
  /\ PastecaseApp.toasts a'
     = PastecaseApp.toasts a
       ++ [PastecaseApp.mkToast (js "Text clip saved successfully")
             PastecaseApp.success].
Proof.
  intros Hb Hs Hl a'. subst a'.
  rewrite (saveTextClip_unfold a env Hb), Hs, Hl, saveClip_ok.
  cbv beta iota. unfold PastecaseApp.thenReload.
  rewrite renderClips_rendered.
  set (a1 := PastecaseApp.loadClips _ None).
  split; [reflexivity|].
  split; [apply (rendered_clips_perm toLowerCase a1)|].
  repeat split.
Qed.

End TextModalProperties.

Section SaveOutcomes.

Variable toLowerCase : JSString -> JSString.

(** X5. When the content is not blank but the engine rejects the save, no
    record is added and the key generator stays; the page is untouched, so
    the modal stays open with what was typed; the list in memory is
    untouched; the error is logged and the failure message shown. *)
Theorem text_modal_save_failure_keeps_the_input
  (a : PastecaseApp.App) (env : Engine) (e : JSError) :
  forallb isWhiteSpace (PastecaseApp.text_content (PastecaseApp.dom a))
  = false ->
  saveFault env = Some e ->
  let a' := PastecaseApp.saveTextClip toLowerCase a env in
  records (PastecaseApp.db a') = records (PastecaseApp.db a)
  /\ keyGenerator (PastecaseApp.db a') = keyGenerator (PastecaseApp.db a)
  /\ PastecaseApp.dom a' = PastecaseApp.dom a
  /\ PastecaseApp.clips a' = PastecaseApp.clips a
  /\ PastecaseApp.toasts a'
     = PastecaseApp.toasts a
       ++ [PastecaseApp.mkToast (js "Failed to save clip") PastecaseApp.error]
  /\ PastecaseApp.console a'
     = PastecaseApp.console a ++ [(js "Save error:", e)].
Proof.
  intros Hb Hs a'. subst a'.
  rewrite (saveTextClip_unfold toLowerCase a env Hb), Hs, saveClip_fault.
  cbv beta iota. unfold PastecaseApp.thenReload.
  repeat split.
Qed.

(** X6. When the save is accepted but the reload that follows fails, the
    record is in the store, yet the list in memory is the one from before
    (rearranged at most) and nothing is shown that was not in it; the user
    sees the load failure message followed by the success message, and the
    modal is closed. *)
Theorem text_modal_save_then_failed_reload
  (a : PastecaseApp.App) (env : Engine) (e : JSError) :
  forallb isWhiteSpace (PastecaseApp.text_content (PastecaseApp.dom a))
  = false ->
  saveFault env = None -> loadFault env = Some e ->
  let a' := PastecaseApp.saveTextClip toLowerCase a env in
  List.length (records (PastecaseApp.db a'))
  = S (List.length (records (PastecaseApp.db a)))
  /\ Permutation (PastecaseApp.clips a') (PastecaseApp.clips a)
  /\ (forall c, In c (shown a') -> In c (PastecaseApp.clips a))
  /\ PastecaseApp.text_modal_hidden (PastecaseApp.dom a') = true
  /\ PastecaseApp.toasts a'
     = PastecaseApp.toasts a
       ++ [PastecaseApp.mkToast (js "Failed to load data") PastecaseApp.error;
           PastecaseApp.mkToast (js "Text clip saved successfully")
             PastecaseApp.success].
Proof.
  intros Hb Hs Hl a'. subst a'.
  rewrite (saveTextClip_unfold toLowerCase a env Hb), Hs, Hl, saveClip_ok.
  cbv beta iota. unfold PastecaseApp.thenReload.
  rewrite renderClips_rendered.
  set (a1 := PastecaseApp.loadClips _ (Some e)).
  split; [simpl; rewrite length_app; simpl; lia|].
  split; [apply (rendered_clips_perm toLowerCase a1)|].
  split; [intros c Hc; apply (viewOf_sublist toLowerCase a1 c Hc)|].
  split; [reflexivity|].
  simpl. rewrite <- app_assoc. reflexivity.
Qed.

(** X7. When the read of the file chosen in the image modal has finished and
    the engine accepts the save and the reload, the store gains one record
    of type [image] whose content is a [data:] URL and which carries the
    tags and memo captured at the click and the name, size and MIME type of
    the file; the modal is hidden with its inputs emptied and the success
    message is shown. *)
Theorem image_modal_save_succeeds
  (a : PastecaseApp.App) (file : File.t) (chosenTags : list JSString)
  (chosenMemo : JSString) (env : Engine) :
  saveFault env = None -> loadFault env = None ->
  let a' := PastecaseApp.onload toLowerCase a
              (ModalImageReader file chosenTags chosenMemo) env in
  (exists d,
      records (PastecaseApp.db a')
      = records (PastecaseApp.db a)
        ++ [mkClip (keyGenerator (PastecaseApp.db a)) d (now1 env) (now2 env)]
      /\ type d = js "image"
      /\ startsWith (content d) (js "data:") = true
      /\ content d = readAsDataURL file
      /\ tags d = chosenTags /\ memo d = Some chosenMemo
      /\ filename d = Some (File.name file)
      /\ filesize d = Some (File.size file)
      /\ mimeType d = Some (File.type file))
  /\ Permutation (PastecaseApp.clips a') (records (PastecaseApp.db a'))
  /\ PastecaseApp.image_input (PastecaseApp.dom a') = None
  /\ PastecaseApp.image_tags (PastecaseApp.dom a') = []
  /\ PastecaseApp.image_memo (PastecaseApp.dom a') = []
  /\ PastecaseApp.image_modal_hidden (PastecaseApp.dom a') = true
  /\ PastecaseApp.toasts a'
     = PastecaseApp.toasts a
       ++ [PastecaseApp.mkToast (js "Image clip saved successfully")
             PastecaseApp.success].
Proof.
  intros Hs Hl a'. subst a'. unfold PastecaseApp.onload.
  rewrite Hs, Hl, saveClip_ok. cbv beta iota.
  unfold PastecaseApp.thenReload. rewrite renderClips_rendered.
  set (a1 := PastecaseApp.loadClips _ None).
  split.
  - eexists. split; [reflexivity|]. repeat split.
  - split; [apply (rendered_clips_perm toLowerCase a1)|]. repeat split.
Qed.

(** X8. A save the engine rejects adds no record and leaves the list in
    memory and the page as they are, whichever handler asked for it; but
    only the handler of the image modal reports it (log entry and failure
    message): the handlers of dropped files show and log nothing. *)
Theorem rejected_save_is_reported_only_by_the_modal
  (a : PastecaseApp.App) (r : Reader) (env : Engine) (e : JSError) :
  saveFault env = Some e ->
  let a' := PastecaseApp.onload toLowerCase a r env in
  records (PastecaseApp.db a') = records (PastecaseApp.db a)
  /\ PastecaseApp.clips a' = PastecaseApp.clips a
  /\ PastecaseApp.dom a' = PastecaseApp.dom a
  /\ match r with
     | ModalImageReader _ _ _ =>
         PastecaseApp.toasts a'
         = PastecaseApp.toasts a
           ++ [PastecaseApp.mkToast (js "Failed to save clip")
                 PastecaseApp.error]
         /\ PastecaseApp.console a'
            = PastecaseApp.console a ++ [(js "Save error:", e)]
     | DroppedImageReader _ | DroppedTextReader _ =>
         PastecaseApp.toasts a' = PastecaseApp.toasts a
         /\ PastecaseApp.console a' = PastecaseApp.console a
     end.
Proof.
  intros Hs a'. subst a'.
  destruct r as [file tags memo | file | file]; unfold PastecaseApp.onload;
    rewrite Hs, saveClip_fault; cbv beta iota;
    unfold PastecaseApp.thenReload; repeat split.
Qed.

(** X9. [deleteClip] of the application: declined, it changes nothing at
    all; confirmed but rejected by the engine, it removes nothing, logs the
    error and shows the failure message; confirmed and carried out, with the
    reload accepted, it leaves in the store exactly the records with another
    id, reloads them, shows no clip with that id and shows the success
    message. *)
Theorem deleteClip_outcomes
  (a : PastecaseApp.App) (key : Z) (e : JSError)
  (deleteFault loadFault : option JSError) :
  PastecaseApp.deleteClip toLowerCase a key false deleteFault loadFault = a
  /\ (let a' := PastecaseApp.deleteClip toLowerCase a key true (Some e)
                  loadFault in
      records (PastecaseApp.db a') = records (PastecaseApp.db a)
      /\ PastecaseApp.clips a' = PastecaseApp.clips a
      /\ PastecaseApp.toasts a'
         = PastecaseApp.toasts a
           ++ [PastecaseApp.mkToast (js "Failed to delete clip")
                 PastecaseApp.error]
      /\ PastecaseApp.console a'
         = PastecaseApp.console a ++ [(js "Delete error:", e)])
  /\ (let a' := PastecaseApp.deleteClip toLowerCase a key true None None in
      Selects (fun c => id c <> key) (records (PastecaseApp.db a))
              (records (PastecaseApp.db a'))
      /\ Permutation (PastecaseApp.clips a') (records (PastecaseApp.db a'))
      /\ Forall (fun c => id c <> key) (shown a')
      /\ PastecaseApp.toasts a'
         = PastecaseApp.toasts a
           ++ [PastecaseApp.mkToast (js "Clip deleted successfully")
                 PastecaseApp.success]).
Proof.
  split; [reflexivity|]. split.
  - unfold PastecaseApp.deleteClip. simpl. repeat split.
  - unfold PastecaseApp.deleteClip. cbv beta iota zeta. simpl negb. cbv iota.
    change (PastecaseDB.deleteClip (PastecaseApp.db a) key None)
      with (Normal tt,
            mkDB (filter (fun c => negb (id c =? key)%Z)
                         (records (PastecaseApp.db a)))
                 (keyGenerator (PastecaseApp.db a))
                 (requests (PastecaseApp.db a) ++ [DeleteRequest key])).
    cbv beta iota. unfold PastecaseApp.thenReload.
    rewrite renderClips_rendered.
    set (a1 := PastecaseApp.loadClips _ None).
    assert (S : Selects (fun c => id c <> key) (records (PastecaseApp.db a))
                  (filter (fun c => negb (id c =? key)%Z)
                          (records (PastecaseApp.db a)))).
    { apply Selects_filter. intros c _.
      rewrite negb_true_iff, Z.eqb_neq. reflexivity. }
    split; [exact S|].
    split; [apply (rendered_clips_perm toLowerCase a1)|].
    split; [|reflexivity].
    apply Forall_forall. intros c Hc.
    apply (viewOf_sublist toLowerCase a1) in Hc.
    apply (Selects_In S) in Hc. tauto.
Qed.

(** X10. The delete button of the image preview asks twice.  The record is
    removed only when both questions are answered yes (and the engine
    carries the deletion out); a yes followed by a no closes the preview and
    leaves everything else as it was; a first no changes nothing. *)
Theorem preview_delete_asks_twice (a : PastecaseApp.App) (clip : Clip)
  (confirmed2 : bool) (deleteFault loadFault : option JSError) :
  PastecaseApp.previewDeleteClick toLowerCase a clip false confirmed2
    deleteFault loadFault = (a, false)
  /\ PastecaseApp.previewDeleteClick toLowerCase a clip true false
       deleteFault loadFault = (a, true)
  /\ Selects (fun c => id c <> id clip) (records (PastecaseApp.db a))
       (records (PastecaseApp.db
                   (fst (PastecaseApp.previewDeleteClick toLowerCase a clip
                           true true None loadFault))))
  /\ snd (PastecaseApp.previewDeleteClick toLowerCase a clip true true
            deleteFault loadFault) = true.
Proof.
  split; [reflexivity|]. split; [reflexivity|]. split; [|reflexivity].
  unfold PastecaseApp.previewDeleteClick, PastecaseApp.deleteClip.
  cbv beta iota zeta. simpl negb. cbv iota.
  change (PastecaseDB.deleteClip (PastecaseApp.db a) (id clip) None)
    with (Normal tt,
          mkDB (filter (fun c => negb (id c =? id clip)%Z)
                       (records (PastecaseApp.db a)))
               (keyGenerator (PastecaseApp.db a))
               (requests (PastecaseApp.db a) ++ [DeleteRequest (id clip)])).
  cbv beta iota. unfold fst.
  rewrite thenReload_db by reflexivity. simpl.
  apply Selects_filter. intros c _.
  rewrite negb_true_iff, Z.eqb_neq. reflexivity.
Qed.

End SaveOutcomes.

(** ** Rendering *)

Lemma Array_sort_fixed {A} (cmp : A -> A -> Z) (l : list A) :
  StronglySorted (fun x y => (cmp x y <= 0)%Z) l -> Array_sort cmp l = l.
Proof.
  induction 1 as [|x l _ IH Hx]; simpl; [reflexivity|].
  rewrite IH. destruct l as [|y l]; simpl; [reflexivity|].
  inversion Hx as [|? ? Hxy _]; subst.
  destruct (Z.leb_spec (cmp x y) 0); [reflexivity | lia].
Qed.

Lemma compareClips_sorted (sort : JSString) (l : list Clip) :
  StronglySorted (fun x y => (PastecaseApp.compareClips sort x y <= 0)%Z)
                 (Array_sort (PastecaseApp.compareClips sort) l).
Proof.
  apply Array_sort_sorted.
  - auto.
  - unfold PastecaseApp.compareClips. intros a b.
    destruct (str_eqb sort (js "newest")); lia.
  - unfold PastecaseApp.compareClips. intros a b c.
    destruct (str_eqb sort (js "newest")); lia.
Qed.

Lemma Array_sort_twice (sort : JSString) (l : list Clip) :
  Array_sort (PastecaseApp.compareClips sort)
             (Array_sort (PastecaseApp.compareClips sort) l)
  = Array_sort (PastecaseApp.compareClips sort) l.
Proof. apply Array_sort_fixed, compareClips_sorted. Qed.

Section RenderingProperties.

Variable toLowerCase : JSString -> JSString.

Lemma viewOf_rendered (a : PastecaseApp.App) :
  viewOf toLowerCase (rendered toLowerCase a) = viewOf toLowerCase a.
Proof.
  destruct (truthy (PastecaseApp.currentSearch a)
            || truthy (PastecaseApp.currentFilter a)) eqn:E.
  - unfold viewOf at 1. unfold rendered. simpl. rewrite E. reflexivity.
  - rewrite (viewOf_unfiltered toLowerCase (rendered toLowerCase a))
      by exact E.
    unfold rendered. simpl. rewrite E.
    rewrite (viewOf_unfiltered toLowerCase a) by exact E.
    apply Array_sort_twice.
Qed.

Lemma rendered_twice (a : PastecaseApp.App) :
  rendered toLowerCase (rendered toLowerCase a) = rendered toLowerCase a.
Proof.
  unfold rendered at 1. rewrite viewOf_rendered.
  unfold rendered. simpl.
  destruct (truthy (PastecaseApp.currentSearch a)
            || truthy (PastecaseApp.currentFilter a)); reflexivity.
Qed.

(** X11. With the case mapping sending the empty string to itself, the
    clips [renderClips] shows are exactly the loaded clips that match the
    search text (in content, present memo or a tag) and have the selected
    category when one is selected, each as often as it is loaded; and the
    empty-state element is visible exactly when there is no such clip. *)
Theorem view_shows_the_matching_clips (a : PastecaseApp.App) :
  toLowerCase [] = [] ->
  exists kept a',
    Selects (fun c => matchesBySpec toLowerCase (PastecaseApp.currentSearch a) c
                      /\ hasType (Some (PastecaseApp.currentFilter a)) c)
            (PastecaseApp.clips a) kept
    /\ PastecaseApp.renderClips toLowerCase a = Normal a'
    /\ Permutation (shown a') kept
    /\ (PastecaseApp.empty_state_hidden (PastecaseApp.dom a') = false
        <-> kept = []).
Proof.
  intros Hnil.
  destruct (view_keeps_the_matching_clips toLowerCase a Hnil)
    as [kept [a' [S [Hr HP]]]].
  exists kept, a'. split; [exact S|]. split; [exact Hr|]. split; [exact HP|].
  rewrite renderClips_rendered in Hr. injection Hr as <-.
  unfold rendered in *. simpl in *.
  rewrite negb_false_iff, Nat.eqb_eq. split.
  - intros H0. apply length_zero_iff_nil in H0. rewrite H0 in HP.
    apply Permutation_nil. exact HP.
  - intros ->. apply Permutation_sym, Permutation_nil in HP.
    rewrite HP. reflexivity.
Qed.

(** X12. Rendering is idempotent: [renderClips] completes, and rendering
    the state it leaves gives that same state again, although the first
    rendering may have reordered the list in memory. *)
Theorem rendering_twice_changes_nothing (a : PastecaseApp.App) :
  exists a',
    PastecaseApp.renderClips toLowerCase a = Normal a'
    /\ PastecaseApp.renderClips toLowerCase a' = Normal a'
    /\ Permutation (PastecaseApp.clips a') (PastecaseApp.clips a).
Proof.
  exists (rendered toLowerCase a).
  split; [apply renderClips_rendered|].
  split; [rewrite renderClips_rendered, rendered_twice; reflexivity|].
  apply rendered_clips_perm.
Qed.

Lemma viewEvent_rendered (a : PastecaseApp.App) (ev : ViewEvent) :
  viewEvent toLowerCase a ev = Normal (rendered toLowerCase (setView ev a)).
Proof. destruct ev; apply renderClips_rendered. Qed.

(** X13. However the user changes search text, category and sort order, and
    however often, every handler completes, the clips in memory stay the
    loaded ones (rearranged at most), and the store, the notifications and
    the pending reads are not touched.  If after at least one change both
    search text and category are empty, everything loaded is shown. *)
Theorem view_events_lose_no_clip (evs : list ViewEvent)
  (a : PastecaseApp.App) :
  exists a',
    viewEvents toLowerCase a evs = Normal a'
    /\ Permutation (PastecaseApp.clips a') (PastecaseApp.clips a)
    /\ PastecaseApp.db a' = PastecaseApp.db a
    /\ PastecaseApp.toasts a' = PastecaseApp.toasts a
    /\ PastecaseApp.readers a' = PastecaseApp.readers a
    /\ (evs <> [] ->
        PastecaseApp.currentSearch a' = [] ->
        PastecaseApp.currentFilter a' = [] ->
        Permutation (shown a') (PastecaseApp.clips a)).
Proof.
  revert a. induction evs as [|ev evs IH]; intros a.
  - exists a. simpl. repeat split; auto. congruence.
  - simpl. rewrite viewEvent_rendered. simpl.
    set (a1 := rendered toLowerCase (setView ev a)).
    assert (HP1 : Permutation (PastecaseApp.clips a1) (PastecaseApp.clips a)).
    { unfold a1. rewrite rendered_clips_perm. destruct ev; reflexivity. }
    destruct (IH a1) as [a' [Hr [HP [Hd [Ht [Hrd Hall]]]]]].
    exists a'. split; [exact Hr|].
    split; [rewrite HP; exact HP1|].
    split; [rewrite Hd; destruct ev; reflexivity|].
    split; [rewrite Ht; destruct ev; reflexivity|].
    split; [rewrite Hrd; destruct ev; reflexivity|].
    intros _ Hs Hf. destruct evs as [|ev2 evs].
    + simpl in Hr. injection Hr as <-.
      assert (E : truthy (PastecaseApp.currentSearch (setView ev a))
                  || truthy (PastecaseApp.currentFilter (setView ev a))
                  = false).
      { change (PastecaseApp.currentSearch (setView ev a))
          with (PastecaseApp.currentSearch a1).
        change (PastecaseApp.currentFilter (setView ev a))
          with (PastecaseApp.currentFilter a1).
        rewrite Hs, Hf. reflexivity. }
      unfold shown, a1, rendered. simpl.
      rewrite (viewOf_unfiltered toLowerCase (setView ev a) E).
      rewrite <- Array_sort_perm. destruct ev; reflexivity.
    + rewrite (Hall ltac:(discriminate) Hs Hf). exact HP1.
Qed.

End RenderingProperties.

(** ** Order among the clips shown *)

Lemma sort_insert_filter {A} (cmp : A -> A -> Z) (p : A -> bool) (x : A)
  (l : list A) :
  (forall a b, p a = true -> p b = true -> (cmp a b <= 0)%Z) ->
  filter p (sort_insert cmp x l) = filter p (x :: l).
Proof.
  intros Hp. induction l as [|y l IH]; [reflexivity|].
  simpl sort_insert. destruct (Z.leb_spec (cmp x y) 0) as [Hc|Hc];
    [reflexivity|].
  simpl in *. rewrite IH.
  destruct (p x) eqn:Ex, (p y) eqn:Ey; try reflexivity.
  specialize (Hp x y Ex Ey). lia.
Qed.

Lemma Array_sort_filter {A} (cmp : A -> A -> Z) (p : A -> bool) (l : list A) :
  (forall a b, p a = true -> p b = true -> (cmp a b <= 0)%Z) ->
  filter p (Array_sort cmp l) = filter p l.
Proof.
  intros Hp. induction l as [|x l IH]; [reflexivity|].
  simpl Array_sort. rewrite sort_insert_filter by exact Hp.
  simpl. rewrite IH. reflexivity.
Qed.

Lemma same_time_compare (sort : JSString) (t : Z) (a b : Clip) :
  (createdAt a =? t)%Z = true -> (createdAt b =? t)%Z = true ->
  (PastecaseApp.compareClips sort a b <= 0)%Z.
Proof.
  rewrite !Z.eqb_eq. intros Ha Hb. unfold PastecaseApp.compareClips.
  destruct (str_eqb sort (js "newest")); lia.
Qed.

Lemma filter_comm {A} (p q : A -> bool) (l : list A) :
  filter p (filter q l) = filter q (filter p l).
Proof.
  rewrite !filter_filter. apply filter_ext. intros x. apply andb_comm.
Qed.

Lemma StronglySorted_rev {A} (R : A -> A -> Prop) (l : list A) :
  StronglySorted R l -> StronglySorted (fun x y => R y x) (rev l).
Proof.
  induction 1 as [|x l _ IH Hx]; simpl; [constructor|].
  apply StronglySorted_snoc; [exact IH|].
  apply Forall_forall. intros y Hy. apply in_rev in Hy.
  rewrite Forall_forall in Hx. auto.
Qed.

Lemma StronglySorted_weaken {A} (R S : A -> A -> Prop) (l : list A) :
  (forall x y, R x y -> S x y) -> StronglySorted R l -> StronglySorted S l.
Proof.
  intros H. induction 1 as [|x l _ IH Hx]; constructor; [exact IH|].
  eapply Forall_impl; [|exact Hx]. intros y. apply H.
Qed.

Lemma NoDup_map_injective {A B} (f : A -> B) (l : list A) (x y : A) :
  NoDup (map f l) -> In x l -> In y l -> f x = f y -> x = y.
Proof.
  induction l as [|z l IH]; simpl; intros ND Hx Hy E; [contradiction|].
  inversion ND as [|? ? Hz ND']; subst.
  destruct Hx as [<- | Hx], Hy as [<- | Hy]; auto.
  - exfalso. apply Hz. rewrite E. apply in_map. exact Hy.
  - exfalso. apply Hz. rewrite <- E. apply in_map. exact Hx.
Qed.

Lemma oldestFirst_unique (l1 l2 : list Clip) :
  Permutation l1 l2 -> NoDup (map createdAt l1) ->
  oldestFirst l1 -> oldestFirst l2 -> l1 = l2.
Proof.
  revert l2. induction l1 as [|x l1 IH]; intros l2 HP ND S1 S2.
  - apply Permutation_nil in HP. congruence.
  - destruct l2 as [|y l2];
      [apply Permutation_sym, Permutation_nil in HP; discriminate|].
    assert (Exy : x = y).
    { assert (Hy : In y (x :: l1))
        by (apply (Permutation_in _ (Permutation_sym HP)); left; reflexivity).
      assert (Hx : In x (y :: l2))
        by (apply (Permutation_in _ HP); left; reflexivity).
      apply (NoDup_map_injective createdAt (x :: l1)); auto;
        [left; reflexivity|].
      inversion S1 as [|? ? _ F1]; subst. inversion S2 as [|? ? _ F2]; subst.
      rewrite Forall_forall in F1, F2.
      destruct Hy as [<- | Hy]; [reflexivity|].
      destruct Hx as [-> | Hx]; [reflexivity|].
      specialize (F1 y Hy). specialize (F2 x Hx). lia. }
    subst y. f_equal.
    apply IH.
    + apply Permutation_cons_inv with x. exact HP.
    + inversion ND; assumption.
    + inversion S1; assumption.
    + inversion S2; assumption.
Qed.

Lemma filter_perm {A} (p : A -> bool) (l1 l2 : list A) :
  Permutation l1 l2 -> Permutation (filter p l1) (filter p l2).
Proof.
  induction 1 as [|x l1 l2 _ IH|x y l|l1 l2 l3 _ IH1 _ IH2]; simpl.
  - constructor.
  - destruct (p x); [constructor|]; exact IH.
  - destruct (p x), (p y); try reflexivity. apply perm_swap.
  - rewrite IH1. exact IH2.
Qed.

Lemma distinct_times_filter (keep : Clip -> bool) (cs : list Clip) :
  NoDup (map createdAt cs) -> NoDup (map createdAt (filter keep cs)).
Proof.
  intros ND. induction cs as [|c cs IH]; simpl; [constructor|].
  simpl in ND. apply NoDup_cons_iff in ND as [Hc ND].
  destruct (keep c); simpl; [|auto].
  apply NoDup_cons; [|auto].
  intros H. apply Hc. apply in_map_iff in H as [y [E Hy]].
  apply filter_In in Hy as [Hy _]. rewrite <- E. apply in_map. exact Hy.
Qed.

Section OrderProperties.

Variable toLowerCase : JSString -> JSString.

(** X14. Clips with the same [createdAt] are shown in the order in which
    they were loaded, under either sort order: for every timestamp, the
    clips shown that carry it are the loaded clips that carry it and are
    shown, in their loaded order; without search text and category filter
    they are simply the loaded clips with that timestamp, in loaded order. *)
Theorem equal_timestamps_keep_the_loaded_order
  (a : PastecaseApp.App) (t : Z) :
  exists a',
    PastecaseApp.renderClips toLowerCase a = Normal a'
    /\ Selects (fun c => In c (shown a'))
               (filter (fun c => (createdAt c =? t)%Z) (PastecaseApp.clips a))
               (filter (fun c => (createdAt c =? t)%Z) (shown a'))
    /\ (PastecaseApp.currentSearch a = [] ->
        PastecaseApp.currentFilter a = [] ->
        filter (fun c => (createdAt c =? t)%Z) (shown a')
        = filter (fun c => (createdAt c =? t)%Z) (PastecaseApp.clips a)).
Proof.
  exists (rendered toLowerCase a).
  split; [apply renderClips_rendered|].
  change (shown (rendered toLowerCase a)) with (viewOf toLowerCase a).
  split.
  - unfold viewOf.
    rewrite Array_sort_filter by (intros x y; apply same_time_compare).
    rewrite filter_comm. apply Selects_filter. intros c Hc.
    apply filter_In in Hc as [Hc _].
    split.
    + intros Hpass.
      apply (Permutation_in _ (Array_sort_perm _ _)).
      apply filter_In. split; assumption.
    + intros Hin.
      apply (Permutation_in _ (Permutation_sym (Array_sort_perm _ _))) in Hin.
      apply filter_In in Hin. tauto.
  - intros Hs Hf.
    rewrite viewOf_unfiltered by (rewrite Hs, Hf; reflexivity).
    apply Array_sort_filter. intros x y. apply same_time_compare.
Qed.

(** X15. When no two loaded clips have the same [createdAt], switching from
    ["newest"] to any other sort order shows the same clips in exactly the
    reverse order. *)
Theorem switching_the_sort_order_reverses_the_list
  (a : PastecaseApp.App) (sort : JSString) :
  NoDup (map createdAt (PastecaseApp.clips a)) ->
  sort <> js "newest" ->
  exists a1 a2,
    PastecaseApp.handleSort toLowerCase a (js "newest") = Normal a1
    /\ PastecaseApp.handleSort toLowerCase a1 sort = Normal a2
    /\ shown a2 = rev (shown a1).
Proof.
  intros ND Hsort.
  unfold PastecaseApp.handleSort.
  set (aN := PastecaseApp.set_currentSort (js "newest") a).
  set (a1 := rendered toLowerCase aN).
  set (aO := PastecaseApp.set_currentSort sort a1).
  exists a1, (rendered toLowerCase aO).
  split; [apply renderClips_rendered|].
  split; [apply renderClips_rendered|].
  change (shown (rendered toLowerCase aO)) with (viewOf toLowerCase aO).
  change (shown a1) with (viewOf toLowerCase aN).
  set (pass := fun c =>
         (negb (truthy (PastecaseApp.currentSearch a))
          || matchesTextb toLowerCase (PastecaseApp.currentSearch a) c)
         && PastecaseDB.matchesType (Some (PastecaseApp.currentFilter a)) c).
  assert (EN : viewOf toLowerCase aN
               = Array_sort (PastecaseApp.compareClips (js "newest"))
                   (filter pass (PastecaseApp.clips a))) by reflexivity.
  assert (EO : viewOf toLowerCase aO
               = Array_sort (PastecaseApp.compareClips sort)
                   (filter pass (PastecaseApp.clips a1))) by reflexivity.
  assert (HP1 : Permutation (PastecaseApp.clips a1) (PastecaseApp.clips a))
    by apply (rendered_clips_perm toLowerCase aN).
  assert (HP : Permutation (viewOf toLowerCase aO)
                           (rev (viewOf toLowerCase aN))).
  { rewrite EO, EN, <- Permutation_rev, <- !Array_sort_perm.
    apply filter_perm. exact HP1. }
  apply oldestFirst_unique; [exact HP | | |].
  - apply Permutation_NoDup
      with (l := map createdAt (filter pass (PastecaseApp.clips a))).
    + apply Permutation_map. rewrite EO, <- Array_sort_perm.
      apply filter_perm. symmetry. exact HP1.
    + apply distinct_times_filter. exact ND.
  - rewrite EO. apply sort_oldest. exact Hsort.
  - rewrite EN.
    apply StronglySorted_weaken
      with (R := fun x y => (createdAt y >= createdAt x)%Z);
      [intros; lia|].
    apply (StronglySorted_rev (R := fun x y => (createdAt x >= createdAt y)%Z)).
    apply sort_newest. reflexivity.
Qed.

End OrderProperties.

(** ** More on the object store *)

Lemma store_ids_ascend (db : ObjectStore) :
  store_wf db -> StronglySorted Z.lt (map id (records db)).
Proof.
  intros [H _]. induction H as [|x l _ IH Hx]; simpl; constructor;
    [exact IH|].
  apply Forall_forall. intros k Hk. apply in_map_iff in Hk as [c [<- Hc]].
  rewrite Forall_forall in Hx. auto.
Qed.

Lemma filter_false {A} (p : A -> bool) (l : list A) :
  (forall x, In x l -> p x = false) -> filter p l = [].
Proof.
  induction l as [|x l IH]; intros H; simpl; [reflexivity|].
  rewrite (H x (or_introl eq_refl)). apply IH. intros; apply H; right; auto.
Qed.

(** X16. In a store that satisfies the invariant, saving a clip and then
    deleting the id the save returned leaves the records as they were
    before the save; the key generator has moved on all the same, so the
    next save gets a new id, not the one just freed. *)
Theorem save_then_delete_restores_the_records
  (db : ObjectStore) (d : ClipData) (t1 t2 : Z) :
  store_wf db ->
  let saved := PastecaseDB.saveClip db d t1 t2 None in
  let deleted := PastecaseDB.deleteClip (snd saved) (keyGenerator db) None in
  fst saved = Normal (keyGenerator db)
  /\ fst deleted = Normal tt
  /\ records (snd deleted) = records db
  /\ fst (PastecaseDB.saveClip (snd deleted) d t1 t2 None)
     = Normal (keyGenerator db + 1)%Z.
Proof.
  intros [_ Hlt] saved deleted. subst saved deleted.
  rewrite saveClip_ok. simpl.
  split; [reflexivity|]. split; [reflexivity|]. split; [|reflexivity].
  rewrite filter_app. simpl. rewrite Z.eqb_refl. simpl.
  rewrite app_nil_r. apply filter_true. intros c Hc.
  rewrite Forall_forall in Hlt. specialize (Hlt c Hc).
  rewrite negb_true_iff, Z.eqb_neq. lia.
Qed.

(** X17. In a store that satisfies the invariant, deleting the id of a
    stored record removes that record and only that one: the others stay,
    in their order. *)
Theorem delete_removes_exactly_one_record (db : ObjectStore) (c : Clip) :
  store_wf db -> In c (records db) ->
  exists before after,
    records db = before ++ c :: after
    /\ records (snd (PastecaseDB.deleteClip db (id c) None))
       = before ++ after.
Proof.
  intros Hwf Hc.
  destruct (in_split _ _ Hc) as [before [after E]].
  exists before, after. split; [exact E|].
  pose proof (ascending_NoDup (store_ids_ascend Hwf)) as ND.
  rewrite E, map_app in ND. simpl in ND.
  apply NoDup_remove in ND as [_ Hnot].
  simpl. rewrite E, filter_app. simpl. rewrite Z.eqb_refl. simpl.
  f_equal; apply filter_true; intros x Hx;
    rewrite negb_true_iff, Z.eqb_neq; intros Heq; apply Hnot;
    apply in_or_app; [left | right]; rewrite <- Heq; apply in_map; exact Hx.
Qed.

(** X18. Deletions commute and repeat harmlessly: deleting two ids leaves
    the same records in either order, and deleting an id a second time
    leaves the records the first deletion left. *)
Theorem deletions_commute (db : ObjectStore) (k1 k2 : Z) :
  records (snd (PastecaseDB.deleteClip
                  (snd (PastecaseDB.deleteClip db k1 None)) k2 None))
  = records (snd (PastecaseDB.deleteClip
                    (snd (PastecaseDB.deleteClip db k2 None)) k1 None))
  /\ records (snd (PastecaseDB.deleteClip
                     (snd (PastecaseDB.deleteClip db k1 None)) k1 None))
     = records (snd (PastecaseDB.deleteClip db k1 None)).
Proof.
  simpl. split; [apply filter_comm|].
  rewrite filter_filter. apply filter_ext. intros c.
  destruct (id c =? k1)%Z; reflexivity.
Qed.

Section MoreSearchProperties.

Variable toLowerCase : JSString -> JSString.

Lemma includes_trans (s q2 q1 : JSString) :
  includes s q2 = true -> includes q2 q1 = true -> includes s q1 = true.
Proof.
  rewrite !includes_substring.
  intros [pre [post ->]] [pre' [post' ->]].
  exists (pre ++ pre'), (post' ++ post).
  rewrite <- !app_assoc. reflexivity.
Qed.

Lemma matchesTextb_narrows (q1 q2 : JSString) (c : Clip) :
  includes (toLowerCase q2) (toLowerCase q1) = true ->
  matchesTextb toLowerCase q2 c = true ->
  matchesTextb toLowerCase q1 c = true.
Proof.
  intros Hq. unfold matchesTextb. rewrite !orb_true_iff.
  intros [[H | H] | H].
  - left; left. eapply includes_trans; eassumption.
  - left; right. destruct (memo (data c)) as [m|]; [|discriminate].
    apply andb_true_iff in H as [Hm H]. rewrite Hm. simpl.
    eapply includes_trans; eassumption.
  - right. apply existsb_exists in H as [tag [Ht H]].
    apply existsb_exists. exists tag. split; [exact Ht|].
    eapply includes_trans; eassumption.
Qed.

(** X19. Refining a query narrows the result: if the lowered [q1] occurs in
    the lowered [q2] and [q2] is not empty, then under the same type filter
    the clips found for [q2] are among those found for [q1], in the same
    order. *)
Theorem refining_the_query_narrows_the_result
  (db : ObjectStore) (q1 q2 : JSString) (type_ : option JSString) :
  q2 <> [] ->
  includes (toLowerCase q2) (toLowerCase q1) = true ->
  exists r1 r2,
    fst (PastecaseDB.searchClips toLowerCase db (Some q1) type_ None)
    = Normal r1
    /\ fst (PastecaseDB.searchClips toLowerCase db (Some q2) type_ None)
       = Normal r2
    /\ Selects (fun c => In c r2) r1 r2.
Proof.
  intros Hne Hq. rewrite !searchClips_filter.
  set (p1 := fun c => PastecaseDB.matchesType type_ c
                      && (negb (truthy q1) || matchesTextb toLowerCase q1 c)).
  set (p2 := fun c => PastecaseDB.matchesType type_ c
                      && (negb (truthy q2) || matchesTextb toLowerCase q2 c)).
  exists (filter p1 (records db)), (filter p2 (records db)).
  split; [reflexivity|]. split; [reflexivity|].
  assert (Himp : forall c, p2 c = true -> p1 c = true).
  { intros c. unfold p1, p2. rewrite !andb_true_iff, !orb_true_iff.
    intros [Ht [H | H]].
    - destruct q2; [congruence | discriminate].
    - split; [exact Ht|]. right. eapply matchesTextb_narrows; eassumption. }
  assert (E : filter p2 (records db) = filter p2 (filter p1 (records db))).
  { rewrite filter_filter. apply filter_ext_in. intros c _.
    destruct (p2 c) eqn:E2; [rewrite (Himp c E2); reflexivity|].
    symmetry. apply andb_false_r. }
  assert (G : Selects (fun c => In c (filter p2 (records db)))
                (filter p1 (records db))
                (filter p2 (filter p1 (records db)))).
  { apply Selects_filter. intros c Hc.
    rewrite filter_In. apply filter_In in Hc as [Hc _]. tauto. }
  rewrite <- E in G. exact G.
Qed.

(** X20. The type filter composes with the query: for any query, [null]
    included, the result under a type is the result without a type
    restricted to the clips of that type, in the same order. *)
Theorem type_filter_restricts_the_search
  (db : ObjectStore) (query : option JSString) (u : N) (t : JSString) :
  exists rAll rType,
    fst (PastecaseDB.searchClips toLowerCase db query None None)
    = Normal rAll
    /\ fst (PastecaseDB.searchClips toLowerCase db query (Some (u :: t)) None)
       = Normal rType
    /\ Selects (fun c => type (data c) = u :: t) rAll rType.
Proof.
  assert (Hsel : forall q : Clip -> bool,
             Selects (fun c => type (data c) = u :: t)
               (filter (fun c => PastecaseDB.matchesType None c && q c)
                       (records db))
               (filter (fun c => PastecaseDB.matchesType (Some (u :: t)) c
                                 && q c)
                       (records db))).
  { intros q.
    assert (E : filter (fun c => PastecaseDB.matchesType (Some (u :: t)) c
                                 && q c) (records db)
                = filter (PastecaseDB.matchesType (Some (u :: t)))
                    (filter (fun c => PastecaseDB.matchesType None c && q c)
                            (records db))).
    { rewrite filter_filter. apply filter_ext. intros c. simpl.
      apply andb_comm. }
    rewrite E. apply Selects_filter. intros c _.
    apply (matchesType_spec (Some (u :: t)) c). }
  destruct query as [q|].
  - rewrite !searchClips_filter.
    eexists. eexists. split; [reflexivity|]. split; [reflexivity|].
    apply Hsel.
  - rewrite !searchClips_no_query by reflexivity.
    eexists. eexists. split; [reflexivity|]. split; [reflexivity|].
    specialize (Hsel (fun _ => true)).
    assert (E : forall ty,
               filter (fun c => PastecaseDB.matchesType ty c && true)
                      (records db)
               = filter (PastecaseDB.matchesType ty) (records db))
      by (intros ty; apply filter_ext; intros c; apply andb_true_r).
    rewrite !E in Hsel. exact Hsel.
Qed.

End MoreSearchProperties.

(** ** Cards *)

Lemma split_on_single (sep : N) (p : JSString) :
  ~ In sep p -> split_on sep p = [p].
Proof.
  induction p as [|c p IH]; intros H; simpl; [reflexivity|].
  destruct (N.eqb_spec c sep) as [->|Hc];
    [exfalso; apply H; left; reflexivity|].
  rewrite IH by (intros H'; apply H; right; exact H'). reflexivity.
Qed.

Lemma split_on_cons (sep : N) (p rest : JSString) :
  ~ In sep p -> split_on sep (p ++ sep :: rest) = p :: split_on sep rest.
Proof.
  induction p as [|c p IH]; intros H; simpl.
  - rewrite N.eqb_refl. reflexivity.
  - destruct (N.eqb_spec c sep) as [->|Hc];
      [exfalso; apply H; left; reflexivity|].
    rewrite IH by (intros H'; apply H; right; exact H'). reflexivity.
Qed.

Lemma split_on_last (sep : N) (stem ext : JSString) :
  ~ In sep ext ->
  exists first init, split_on sep (stem ++ sep :: ext) = first :: init ++ [ext].
Proof.
  intros H. induction stem as [|c stem [first [init IH]]]; simpl.
  - rewrite N.eqb_refl, (@split_on_single sep ext H). exists [], [].
    reflexivity.
  - rewrite IH. destruct (N.eqb c sep).
    + exists [], (first :: init). reflexivity.
    + exists (c :: first), init. reflexivity.
Qed.

Lemma pop_last {A} (first : A) (init : list A) (x : A) :
  pop (first :: init ++ [x]) = Some x.
Proof.
  unfold pop. simpl. rewrite rev_app_distr. reflexivity.
Qed.

Lemma pop_extension (f ext : JSString) :
  extensionOf f ext -> pop (split_on 46 f) = Some ext.
Proof.
  intros [[H ->] | [stem [-> H]]].
  - rewrite (@split_on_single 46%N f H). reflexivity.
  - destruct (@split_on_last 46%N stem ext H) as [first [init E]].
    rewrite E. apply pop_last.
Qed.

(** X21. The text a card shows for a text clip is never longer than 103
    code units; it always begins with the first 100 code units of the
    content; a content of at most 100 code units is shown in full, and a
    longer one as its first 100 code units followed by three dots. *)
Theorem card_text_is_bounded (clip : Clip) :
  (List.length (PastecaseApp.truncatedContent clip) <= 103)%nat
  /\ firstn 100 (PastecaseApp.truncatedContent clip)
     = firstn 100 (content (data clip))
  /\ ((List.length (content (data clip)) <= 100)%nat ->
      PastecaseApp.truncatedContent clip = content (data clip))
  /\ ((100 < List.length (content (data clip)))%nat ->
      PastecaseApp.truncatedContent clip
      = firstn 100 (content (data clip)) ++ js "..."
      /\ List.length (PastecaseApp.truncatedContent clip) = 103%nat).
Proof.
  unfold PastecaseApp.truncatedContent.
  destruct (Nat.ltb_spec 100 (List.length (content (data clip)))) as [H|H].
  - assert (L : List.length (firstn 100 (content (data clip))) = 100%nat)
      by (rewrite length_firstn; lia).
    split; [rewrite length_app, L; simpl; lia|].
    split; [|split; [lia|]].
    + rewrite firstn_app, L, Nat.sub_diag, firstn_firstn, Nat.min_id.
      rewrite firstn_O. apply app_nil_r.
    + intros _. split; [reflexivity|]. rewrite length_app, L. reflexivity.
  - split; [lia|]. split; [reflexivity|]. split; [reflexivity | lia].
Qed.

Section HeaderProperties.

Variable toUpperCase : JSString -> JSString.

(** X22. For a text clip that has a non-empty MIME type and a non-empty
    file name, the header reads [Text File (EXT)], where [EXT] is the upper
    case of what follows the last dot of the name, or of the whole name
    when it has no dot; when that upper case is empty (a name ending in a
    dot), it reads [Text File (TXT)]. *)
Theorem text_file_label_shows_the_extension
  (clip : Clip) (m f ext : JSString) :
  type (data clip) = js "text" ->
  mimeType (data clip) = Some m -> m <> [] ->
  filename (data clip) = Some f -> f <> [] ->
  extensionOf f ext ->
  PastecaseApp.typeText toUpperCase clip
  = js "Text File ("
    ++ (if truthy (toUpperCase ext) then toUpperCase ext else js "TXT")
    ++ js ")".
Proof.
  intros Ht Hm Hmne Hf Hfne Hext.
  unfold PastecaseApp.typeText. cbv zeta.
  rewrite Hm, Hf, Ht.
  apply truthy_nonempty in Hmne, Hfne. rewrite Hmne, Hfne.
  rewrite str_eqb_refl. cbv beta iota. simpl andb. cbv iota.
  rewrite (@pop_extension f ext Hext). reflexivity.
Qed.

(** X23. For an image clip whose MIME type is [major/sub], the header reads
    [Image (SUB)] with [SUB] the upper case of [sub], whether or not the
    clip has a file name; when that upper case is empty, or when the MIME
    type is not empty but has no slash, it reads [Image (IMG)]. *)
Theorem image_label_shows_the_subtype
  (clip : Clip) (major sub m : JSString) :
  type (data clip) = js "image" ->
  (mimeType (data clip) = Some (major ++ 47%N :: sub) ->
   ~ In 47%N major -> ~ In 47%N sub ->
   PastecaseApp.typeText toUpperCase clip
   = js "Image ("
     ++ (if truthy (toUpperCase sub) then toUpperCase sub else js "IMG")
     ++ js ")")
  /\ (mimeType (data clip) = Some m -> m <> [] -> ~ In 47%N m ->
      PastecaseApp.typeText toUpperCase clip = js "Image (IMG)").
Proof.
  intros Ht. split.
  - intros Hm Hmaj Hsub.
    unfold PastecaseApp.typeText. cbv zeta. rewrite Hm, Ht.
    assert (Htr : truthy (major ++ 47%N :: sub) = true)
      by (destruct major; reflexivity).
    rewrite Htr, (@split_on_cons 47%N major sub Hmaj),
      (@split_on_single 47%N sub Hsub).
    destruct (filename (data clip)) as [f|]; reflexivity.
  - intros Hm Hne Hns.
    unfold PastecaseApp.typeText. cbv zeta. rewrite Hm, Ht.
    apply truthy_nonempty in Hne.
    rewrite Hne, (@split_on_single 47%N m Hns).
    destruct (filename (data clip)) as [f|]; reflexivity.
Qed.

End HeaderProperties.

(** ** The order of what dropped files store *)

Section FinishingOrder.

Variable toLowerCase : JSString -> JSString.

Lemma onload_saved (a : PastecaseApp.App) (r : Reader) (env : Engine) :
  map savedOf
      (records (PastecaseApp.db (PastecaseApp.onload toLowerCase a r env)))
  = map savedOf (records (PastecaseApp.db a))
    ++ match saveFault env with
       | None => [(payload r, now1 env, now2 env)]
       | Some _ => []
       end.
Proof.
  rewrite onload_db. destruct (saveFault env) as [e|]; simpl.
  - rewrite app_nil_r. reflexivity.
  - rewrite map_app. reflexivity.
Qed.

Lemma onload_wf (a : PastecaseApp.App) (r : Reader) (env : Engine) :
  store_wf (PastecaseApp.db a) ->
  store_wf (PastecaseApp.db (PastecaseApp.onload toLowerCase a r env)).
Proof.
  intros H. rewrite onload_db. destruct (saveFault env) as [e|].
  - apply store_wf_place. exact H.
  - apply store_wf_place. apply (store_wf_save _ _ _ None H).
Qed.

(** X24. The records that finished reads add to the store follow the order
    in which the reads finish, not the order of the drop: after any
    sequence of load events the store holds, after what it held, one record
    for each event whose save the engine accepted, in the order of the
    events, with the object of its reader and the clock readings of its
    event; an event whose save is rejected adds nothing and stops nothing;
    and the invariant of the store is kept. *)
Theorem finished_reads_are_stored_in_their_order
  (events : list (Reader * Engine)) (a : PastecaseApp.App) :
  let a' := PastecaseApp.loadEvents toLowerCase a events in
  map savedOf (records (PastecaseApp.db a'))
  = map savedOf (records (PastecaseApp.db a))
    ++ map (fun ev => (payload (fst ev), now1 (snd ev), now2 (snd ev)))
           (filter (fun ev => match saveFault (snd ev) with
                              | None => true
                              | Some _ => false
                              end) events)
  /\ (store_wf (PastecaseApp.db a) -> store_wf (PastecaseApp.db a')).
Proof.
  revert a. induction events as [|[r env] events IH]; intros a; simpl.
  - rewrite app_nil_r. split; [reflexivity | auto].
  - destruct (IH (PastecaseApp.onload toLowerCase a r env)) as [H1 H2].
    unfold PastecaseApp.loadEvents in *. simpl. split.
    + rewrite H1, onload_saved, <- app_assoc.
      destruct (saveFault env); reflexivity.
    + intros Hwf. apply H2, onload_wf, Hwf.
Qed.

End FinishingOrder.

(** ** Instances of the further properties *)

Lemma sampleStore_wf : store_wf sampleStore.
Proof.
  split; repeat constructor; simpl; lia.
Defined.

Lemma text_modal_save_succeeds_witness :
  let env := mkEngine 6000 6001 None None in
  forallb isWhiteSpace
    (PastecaseApp.text_content (PastecaseApp.dom typingApp)) = false
  /\ saveFault env = None /\ loadFault env = None
  /\ records (PastecaseApp.db
                (PastecaseApp.saveTextClip asciiToLowerCase typingApp env))
     = records sampleStore
       ++ [mkClip 4
             (mkClipData (js "text") (js "hello") [js "a"; js "b"]
                (Some (js "note")) None None (Some (js "text/plain")))
             6000 6001].
Proof.
  intros env.
  split; [reflexivity|]. split; [reflexivity|]. split; [reflexivity|].
  exact (proj1 (text_modal_save_succeeds asciiToLowerCase typingApp env
                  eq_refl eq_refl eq_refl)).
Defined.

Lemma text_modal_save_failure_keeps_the_input_witness :
  let env := mkEngine 6000 6001 (Some quotaExceeded) None in
  forallb isWhiteSpace
    (PastecaseApp.text_content (PastecaseApp.dom typingApp)) = false
  /\ saveFault env = Some quotaExceeded
  /\ PastecaseApp.dom
       (PastecaseApp.saveTextClip asciiToLowerCase typingApp env)
     = typingPage.
Proof.
  intros env.
  split; [reflexivity|]. split; [reflexivity|].
  exact (proj1 (proj2 (proj2
           (text_modal_save_failure_keeps_the_input asciiToLowerCase
              typingApp env eq_refl eq_refl)))).
Defined.

Lemma text_modal_save_then_failed_reload_witness :
  let env := mkEngine 6000 6001 None (Some (DOMException "UnknownError")) in
  forallb isWhiteSpace
    (PastecaseApp.text_content (PastecaseApp.dom typingApp)) = false
  /\ saveFault env = None
  /\ loadFault env = Some (DOMException "UnknownError")
  /\ Permutation
       (PastecaseApp.clips
          (PastecaseApp.saveTextClip asciiToLowerCase typingApp env))
       [helloClip; photoClip; noteClip].
Proof.
  intros env.
  split; [reflexivity|]. split; [reflexivity|]. split; [reflexivity|].
  exact (proj1 (proj2
           (text_modal_save_then_failed_reload asciiToLowerCase typingApp env
              eq_refl eq_refl eq_refl))).
Defined.

Lemma image_modal_save_succeeds_witness :
  let env := mkEngine 7000 7000 None None in
  saveFault env = None /\ loadFault env = None
  /\ PastecaseApp.toasts
       (PastecaseApp.onload asciiToLowerCase typingApp
          (ModalImageReader pngFile [js "sea"] (js "beach")) env)
     = [PastecaseApp.mkToast (js "Image clip saved successfully")
          PastecaseApp.success].
Proof.
  intros env.
  split; [reflexivity|]. split; [reflexivity|].
  exact (proj2 (proj2 (proj2 (proj2 (proj2 (proj2
           (image_modal_save_succeeds asciiToLowerCase typingApp pngFile
              [js "sea"] (js "beach") env eq_refl eq_refl))))))).
Defined.

Lemma rejected_save_is_reported_only_by_the_modal_witness :
  let env := mkEngine 7000 7000 (Some quotaExceeded) None in
  saveFault env = Some quotaExceeded
  /\ PastecaseApp.toasts
       (PastecaseApp.onload asciiToLowerCase typingApp
          (DroppedTextReader notesFile) env) = []
  /\ PastecaseApp.console
       (PastecaseApp.onload asciiToLowerCase typingApp
          (DroppedTextReader notesFile) env) = [].
Proof.
  intros env. split; [reflexivity|].
  exact (proj2 (proj2 (proj2
           (rejected_save_is_reported_only_by_the_modal asciiToLowerCase
              typingApp (DroppedTextReader notesFile) env eq_refl)))).
Defined.

Lemma view_shows_the_matching_clips_witness :
  let a := PastecaseApp.set_currentSearch (js "LIST") typingApp in
  asciiToLowerCase [] = []
  /\ exists kept a',
       Selects (fun c => matchesBySpec asciiToLowerCase (js "LIST") c
                         /\ hasType (Some []) c)
               (PastecaseApp.clips a) kept
       /\ PastecaseApp.renderClips asciiToLowerCase a = Normal a'
       /\ Permutation (shown a') kept
       /\ (PastecaseApp.empty_state_hidden (PastecaseApp.dom a') = false
           <-> kept = []).
Proof.
  intros a. split; [reflexivity|].
  exact (view_shows_the_matching_clips asciiToLowerCase a eq_refl).
Defined.

Lemma view_events_lose_no_clip_witness :
  let evs := [SearchInput (js "hello"); FilterChange (js "image");
              SortChange (js "oldest"); SearchInput []; FilterChange []] in
  evs <> []
  /\ exists a',
       viewEvents asciiToLowerCase typingApp evs = Normal a'
       /\ PastecaseApp.currentSearch a' = []
       /\ PastecaseApp.currentFilter a' = []
       /\ Permutation (shown a') [helloClip; photoClip; noteClip].
Proof.
  intros evs.
  assert (Hne : evs <> []) by discriminate.
  split; [exact Hne|].
  destruct (view_events_lose_no_clip asciiToLowerCase evs typingApp)
    as [a' [Hr [_ [_ [_ [_ Hall]]]]]].
  assert (Hs : PastecaseApp.currentSearch a' = []).
  { apply (f_equal (fun c => match c with
                             | Normal x => PastecaseApp.currentSearch x
                             | Throw _ => []
                             end)) in Hr.
    symmetry. exact Hr. }
  assert (Hf : PastecaseApp.currentFilter a' = []).
  { apply (f_equal (fun c => match c with
                             | Normal x => PastecaseApp.currentFilter x
                             | Throw _ => []
                             end)) in Hr.
    symmetry. exact Hr. }
  exists a'. split; [exact Hr|]. split; [exact Hs|]. split; [exact Hf|].
  exact (Hall Hne Hs Hf).
Defined.

Lemma equal_timestamps_keep_the_loaded_order_witness :
  let a := PastecaseApp.set_clips [twinClip; helloClip; photoClip]
             (PastecaseApp.constructor sampleStore) in
  PastecaseApp.currentSearch a = [] /\ PastecaseApp.currentFilter a = []
  /\ exists a',
       PastecaseApp.renderClips asciiToLowerCase a = Normal a'
       /\ filter (fun c => (createdAt c =? 2000)%Z) (shown a')
          = [twinClip; photoClip].
Proof.
  intros a.
  split; [reflexivity|]. split; [reflexivity|].
  destruct (equal_timestamps_keep_the_loaded_order asciiToLowerCase a 2000)
    as [a' [Hr [_ H]]].
  exists a'. split; [exact Hr|]. exact (H eq_refl eq_refl).
Defined.

Lemma switching_the_sort_order_reverses_the_list_witness :
  NoDup (map createdAt (PastecaseApp.clips typingApp))
  /\ js "oldest" <> js "newest"
  /\ exists a1 a2,
       PastecaseApp.handleSort asciiToLowerCase typingApp (js "newest")
       = Normal a1
       /\ PastecaseApp.handleSort asciiToLowerCase a1 (js "oldest")
          = Normal a2
       /\ shown a2 = rev (shown a1).
Proof.
  assert (ND : NoDup (map createdAt (PastecaseApp.clips typingApp))).
  { repeat constructor; simpl; intuition discriminate. }
  assert (Hne : js "oldest" <> js "newest") by discriminate.
  split; [exact ND|]. split; [exact Hne|].
  exact (switching_the_sort_order_reverses_the_list asciiToLowerCase
           typingApp ND Hne).
Defined.

Lemma save_then_delete_restores_the_records_witness :
  store_wf sampleStore
  /\ records
       (snd (PastecaseDB.deleteClip
               (snd (PastecaseDB.saveClip sampleStore (data noteClip)
                       7000 7000 None))
               4 None))
     = [helloClip; photoClip; noteClip].
Proof.
  split; [exact sampleStore_wf|].
  exact (proj1 (proj2 (proj2
           (save_then_delete_restores_the_records (data noteClip) 7000 7000
              sampleStore_wf)))).
Defined.

Lemma delete_removes_exactly_one_record_witness :
  store_wf sampleStore /\ In photoClip (records sampleStore)
  /\ exists before after,
       records sampleStore = before ++ photoClip :: after
       /\ records (snd (PastecaseDB.deleteClip sampleStore 2 None))
          = before ++ after.
Proof.
  assert (Hin : In photoClip (records sampleStore))
    by (right; left; reflexivity).
  split; [exact sampleStore_wf|]. split; [exact Hin|].
  exact (delete_removes_exactly_one_record photoClip sampleStore_wf Hin).
Defined.

Lemma refining_the_query_narrows_the_result_witness :
  js "hello w" <> []
  /\ includes (asciiToLowerCase (js "hello w")) (asciiToLowerCase (js "LO"))
     = true
  /\ exists r1 r2,
       fst (PastecaseDB.searchClips asciiToLowerCase sampleStore
              (Some (js "LO")) None None) = Normal r1
       /\ fst (PastecaseDB.searchClips asciiToLowerCase sampleStore
                 (Some (js "hello w")) None None) = Normal r2
       /\ Selects (fun c => In c r2) r1 r2.
Proof.
  assert (Hne : js "hello w" <> []) by discriminate.
  split; [exact Hne|]. split; [reflexivity|].
  exact (refining_the_query_narrows_the_result asciiToLowerCase sampleStore
           (js "LO") None Hne eq_refl).
Defined.

Lemma card_text_is_bounded_witness :
  (List.length (content (data helloClip)) <= 100)%nat
  /\ (100 < List.length (content (data longClip)))%nat
  /\ PastecaseApp.truncatedContent helloClip = js "Hello World"
  /\ List.length (PastecaseApp.truncatedContent longClip) = 103%nat.
Proof.
  assert (H1 : (List.length (content (data helloClip)) <= 100)%nat)
    by (simpl; lia).
  assert (H2 : (100 < List.length (content (data longClip)))%nat)
    by (simpl; lia).
  split; [exact H1|]. split; [exact H2|]. split.
  - exact (proj1 (proj2 (proj2 (card_text_is_bounded helloClip))) H1).
  - exact (proj2 (proj2 (proj2 (proj2 (card_text_is_bounded longClip))) H2)).
Defined.

Lemma text_file_label_shows_the_extension_witness :
  type (data markdownClip) = js "text"
  /\ mimeType (data markdownClip) = Some (js "text/markdown")
  /\ js "text/markdown" <> []
  /\ filename (data markdownClip) = Some (js "notes.v2.md")
  /\ js "notes.v2.md" <> []
  /\ extensionOf (js "notes.v2.md") (js "md")
  /\ PastecaseApp.typeText asciiToUpperCase markdownClip
     = js "Text File (MD)".
Proof.
  assert (Hm : js "text/markdown" <> []) by discriminate.
  assert (Hf : js "notes.v2.md" <> []) by discriminate.
  assert (He : extensionOf (js "notes.v2.md") (js "md")).
  { right. exists (js "notes.v2"). split; [reflexivity|].
    simpl. intuition discriminate. }
  repeat (split; [first [reflexivity | assumption]|]).
  exact (text_file_label_shows_the_extension asciiToUpperCase markdownClip
           eq_refl eq_refl Hm eq_refl Hf He).
Defined.

Lemma image_label_shows_the_subtype_witness :
  type (data photoClip) = js "image"
  /\ mimeType (data photoClip) = Some (js "image" ++ 47%N :: js "png")
  /\ ~ In 47%N (js "image") /\ ~ In 47%N (js "png")
  /\ PastecaseApp.typeText asciiToUpperCase photoClip = js "Image (PNG)".
Proof.
  assert (H1 : ~ In 47%N (js "image")) by (simpl; intuition discriminate).
  assert (H2 : ~ In 47%N (js "png")) by (simpl; intuition discriminate).
  split; [reflexivity|]. split; [reflexivity|].
  split; [exact H1|]. split; [exact H2|].
  exact (proj1 (image_label_shows_the_subtype asciiToUpperCase photoClip
                  (js "image") (js "png") [] eq_refl) eq_refl H1 H2).
Defined.

Lemma finished_reads_are_stored_in_their_order_witness :
  let events := [(DroppedTextReader notesFile, mkEngine 10 10 None None);
                 (DroppedImageReader pngFile,
                  mkEngine 20 20 (Some quotaExceeded) None);
                 (DroppedImageReader pngFile, mkEngine 30 31 None None)] in
  store_wf (PastecaseApp.db typingApp)
  /\ store_wf (PastecaseApp.db
                 (PastecaseApp.loadEvents asciiToLowerCase typingApp events))
  /\ map savedOf
         (records (PastecaseApp.db
                     (PastecaseApp.loadEvents asciiToLowerCase typingApp
                        events)))
     = map savedOf (records sampleStore)
       ++ [(PastecaseApp.droppedText notesFile, 10%Z, 10%Z);
           (PastecaseApp.droppedImage pngFile, 30%Z, 31%Z)].
Proof.
  intros events.
  destruct (finished_reads_are_stored_in_their_order asciiToLowerCase events
              typingApp) as [H1 H2].
  split; [exact sampleStore_wf|].
  split; [exact (H2 sampleStore_wf) | exact H1].
Defined.
